(** * Athena geometry utilities: attribute decoding, bounding boxes, box fitting

    A shallow embedding of the geometry helpers of [athena/geom.py] and of their
    older duplicates in [athena/geomview.py].

    Conventions of the embedding.
    - Qt's accessors [byteOffset], [byteStride], [count] and [vertexSize] are
      unsigned, so they are natural numbers here.
    - A [QBuffer]'s contents are a Python [bytes] object: a [list byte].
    - A generator is represented by what a consumer that drains it observes:
      the values yielded, in order, and the exception that ended it, if any.
    - [struct] and [numpy] use the machine's native byte order; it is taken to
      be little-endian.
    - Coordinates of points are exact rationals ([Q]); numeric equality of the
      source ([==]) is [Qeq].  The rounding of [QVector3D]'s single-precision
      fields and of numpy's double-precision arithmetic is not modelled.
    - [np.linalg.lstsq] is a parameter of [transformBetween]; the statements
      ask of it only that its result is a least-squares solution. *)

From Stdlib Require Import Ascii String.
From Stdlib.Strings Require Byte.
From Stdlib Require Import List Arith ZArith QArith Lia Lqa Bool.
From Stdlib Require Import Permutation SpecFloat.
Import ListNotations.

Local Open Scope nat_scope.

(** ** Python: exceptions, slices, ranges, generators *)

Inductive exn : Type :=
| StructError        (* struct.error *)
| StopIteration
| IndexError
| ValueError
| KeyError
| ZeroDivisionError.

(** [data[i:j]] for [0 <= i]: the elements at the positions of [[i, j)] that
    exist; positions past the end are silently dropped. *)
Definition py_slice {A : Type} (data : list A) (i j : nat) : list A :=
  firstn (j - i) (skipn i data).

(** The positions of [data] that [data[i:j]] copies, for [len = length data]. *)
Definition slice_reads (len i j : nat) : list nat :=
  seq i (Nat.min j len - i).

(** [range(start, stop, step)] for non-negative arguments; a zero step raises
    [ValueError]. *)
Definition py_range (start stop step : nat) : exn + list nat :=
  match step with
  | 0 => inl ValueError
  | S _ =>
      inr (map (fun k => start + k * step)
               (seq 0 ((stop - start + (step - 1)) / step)))
  end.

(** What draining a generator gives: the values it yielded, the buffer
    positions it read on the way, and the exception that stopped it ([None]
    when it ran to its end). *)
Record run (A : Type) : Type := mkRun {
  yielded : list A;
  reads : list nat;
  raised : option exn
}.
Arguments mkRun {A} _ _ _.
Arguments yielded {A} _.
Arguments reads {A} _.
Arguments raised {A} _.

(** The result of one evaluation that touches the buffer. *)
Definition step (A : Type) : Type := (list nat * (exn + A))%type.

(** [for i in starts: datum = body(i); yield datum] *)
Fixpoint for_yield {A : Type} (body : nat -> step A) (starts : list nat)
  : run A :=
  match starts with
  | [] => mkRun [] [] None
  | i :: rest =>
      match body i with
      | (rd, inl e) => mkRun [] rd (Some e)
      | (rd, inr d) =>
          let r := for_yield body rest in
          mkRun (d :: yielded r) (rd ++ reads r) (raised r)
      end
  end.

(** [[f(j) for j in js]]: the elements in order, up to the first one that
    raises. *)
Fixpoint comprehension {A : Type} (f : nat -> step A) (js : list nat)
  : step (list A) :=
  match js with
  | [] => ([], inr [])
  | j :: rest =>
      match f j with
      | (rd, inl e) => (rd, inl e)
      | (rd, inr v) =>
          match comprehension f rest with
          | (rd', inl e) => (rd ++ rd', inl e)
          | (rd', inr vs) => (rd ++ rd', inr (v :: vs))
          end
      end
  end.

(** ** The [struct] module, for formats made of one repeated code *)

(** The numbers [struct.unpack] returns: an [int] or a [float]. *)
Inductive pyval : Type :=
| PyInt (z : Z)
| PyFloat (f : spec_float).

(** Unsigned little-endian value of a byte string. *)
Fixpoint le_uint (bs : list Byte.byte) : Z :=
  match bs with
  | [] => 0%Z
  | b :: rest => (Z.of_N (Byte.to_N b) + 256 * le_uint rest)%Z
  end.

(** Two's complement reading of an unsigned [bits]-bit value. *)
Definition to_signed (bits : Z) (u : Z) : Z :=
  if (u <? 2 ^ (bits - 1))%Z then u else (u - 2 ^ bits)%Z.

(** IEEE 754 binary interchange format with [mbits] fraction bits and [ebits]
    exponent bits, read from its unsigned bit pattern. *)
Definition ieee_decode (mbits ebits : Z) (u : Z) : spec_float :=
  let sign := Z.testbit u (mbits + ebits) in
  let e := (Z.shiftr u mbits mod 2 ^ ebits)%Z in
  let m := (u mod 2 ^ mbits)%Z in
  let bias := (2 ^ (ebits - 1) - 1)%Z in
  if (e =? 0)%Z then
    match m with
    | Zpos p => S754_finite sign p (1 - bias - mbits)
    | _ => S754_zero sign
    end
  else if (e =? 2 ^ ebits - 1)%Z then
    match m with
    | Z0 => S754_infinity sign
    | _ => S754_nan
    end
  else
    match (m + 2 ^ mbits)%Z with
    | Zpos p => S754_finite sign p (e - bias - mbits)
    | _ => S754_nan
    end.

(** [struct.calcsize(code)] in native mode. *)
Definition calcsize (code : ascii) : nat :=
  match code with
  | "b"%char | "B"%char => 1
  | "h"%char | "H"%char | "e"%char => 2
  | "i"%char | "I"%char | "f"%char => 4
  | "d"%char => 8
  | _ => 0
  end.

(** The value of one item of format [code]. *)
Definition unpack_scalar (code : ascii) (bs : list Byte.byte) : pyval :=
  let u := le_uint bs in
  match code with
  | "b"%char => PyInt (to_signed 8 u)
  | "h"%char => PyInt (to_signed 16 u)
  | "i"%char => PyInt (to_signed 32 u)
  | "e"%char => PyFloat (ieee_decode 10 5 u)
  | "f"%char => PyFloat (ieee_decode 23 8 u)
  | "d"%char => PyFloat (ieee_decode 52 11 u)
  | _ => PyInt u
  end.

(** [n] consecutive pieces of [w] bytes. *)
Fixpoint chunks (w n : nat) (data : list Byte.byte) : list (list Byte.byte) :=
  match n with
  | 0 => []
  | S n' => firstn w data :: chunks w n' (skipn w data)
  end.

(** [struct.unpack(code * n, data)]: the buffer must have exactly the size the
    format asks for (items of one code need no padding between them);
    otherwise [struct.error]. *)
Definition struct_unpack (code : ascii) (n : nat) (data : list Byte.byte)
  : exn + list pyval :=
  if length data =? calcsize code * n
  then inr (map (unpack_scalar code) (chunks (calcsize code) n data))
  else inl StructError.

(** ** Qt3D attributes *)

(** [Qt3DRender.QAttribute.VertexBaseType] *)
Inductive VertexBaseType : Type :=
| Byte | UnsignedByte | Short | UnsignedShort | Int | UnsignedInt
| HalfFloat | Float | Double.

Inductive AttributeType : Type := VertexAttribute | IndexAttribute.

(** A [QAttribute] together with the data of the [QBuffer] it views. *)
Record QAttribute : Type := mkAttr {
  name : string;
  vertexBaseType : VertexBaseType;
  vertexSize : nat;
  attributeType : AttributeType;
  buffer : list Byte.byte;
  byteStride : nat;
  byteOffset : nat;
  count : nat
}.

(** Map from the enumeration to (byte_width, struct_code) pairs; both modules
    hold the same table. *)
Definition basetype_data (t : VertexBaseType) : nat * ascii :=
  match t with
  | Byte => (1, "b"%char) | UnsignedByte => (1, "B"%char)
  | Short => (2, "h"%char) | UnsignedShort => (2, "H"%char)
  | Int => (4, "i"%char) | UnsignedInt => (4, "I"%char)
  | HalfFloat => (2, "e"%char)
  | Float => (4, "f"%char)
  | Double => (8, "d"%char)
  end.

Definition basetype_widths (t : VertexBaseType) : nat := fst (basetype_data t).
Definition basetype_struct_codes (t : VertexBaseType) : ascii :=
  snd (basetype_data t).

(** One evaluation of [att_data[i:j]] followed by [k]: the positions copied
    and the outcome. *)
Definition read_slice {A : Type} (att_data : list Byte.byte) (i j : nat)
  (k : list Byte.byte -> exn + A) : step A :=
  (slice_reads (length att_data) i j, k (py_slice att_data i j)).

(** ** itertools, for the two [grouper] recipes

    Both recipes are handed an iterator (at both call sites a generator,
    [iterAttr(att)]); [iter] of an iterator is that same iterator, so every
    use below advances one shared position.  The state of the iterator is the
    list of elements it has not produced yet. *)

(** An argument of [zip_longest]: still the shared iterator, or already
    replaced by [repeat(fillvalue)]. *)
Inductive slot : Type := Live | Filler.

(** One pass of [zip_longest]'s inner [for] loop over its iterators, all of
    them aliases of the iterator [it].  [None] is the [return] taken when the
    last active iterator is exhausted; otherwise the new slots, the tuple
    (with [None] for the fill value), the iterator and [num_active]. *)
Fixpoint zl_pass {A : Type} (slots : list slot) (it : list A)
  (num_active : nat)
  : option (list slot * list (option A) * list A * nat) :=
  match slots with
  | [] => Some ([], [], it, num_active)
  | Filler :: rest =>
      match zl_pass rest it num_active with
      | None => None
      | Some (sl, vals, it', na) => Some (Filler :: sl, None :: vals, it', na)
      end
  | Live :: rest =>
      match it with
      | x :: it1 =>
          match zl_pass rest it1 num_active with
          | None => None
          | Some (sl, vals, it', na) =>
              Some (Live :: sl, Some x :: vals, it', na)
          end
      | [] =>
          match num_active - 1 with
          | 0 => None
          | S _ as na1 =>
              match zl_pass rest [] na1 with
              | None => None
              | Some (sl, vals, it', na) =>
                  Some (Filler :: sl, None :: vals, it', na)
              end
          end
      end
  end.

(** [zip_longest]'s [while True] loop; the outer [None] means that [fuel]
    passes were not enough. *)
Fixpoint zl_loop {A : Type} (fuel : nat) (slots : list slot) (it : list A)
  (num_active : nat) : option (list (list (option A))) :=
  match fuel with
  | 0 => None
  | S fuel' =>
      match zl_pass slots it num_active with
      | None => Some []
      | Some (sl, vals, it', na) =>
          match zl_loop fuel' sl it' na with
          | None => None
          | Some groups => Some (vals :: groups)
          end
      end
  end.

(** [zip_longest] applied to [n] references to the one iterator [it]. *)
Definition zip_longest_shared {A : Type} (fuel : nat) (n : nat) (it : list A)
  : option (list (list (option A))) :=
  match n with
  | 0 => Some []
  | S _ => zl_loop fuel (repeat Live n) it n
  end.

(** [iter(lambda: list(islice(it, n)), [])]: call until the result equals the
    sentinel [[]]. *)
Fixpoint islice_until_empty {A : Type} (fuel : nat) (n : nat) (it : list A)
  : option (list (list A)) :=
  match fuel with
  | 0 => None
  | S fuel' =>
      match firstn n it with
      | [] => Some []
      | chunk =>
          match islice_until_empty fuel' n (skipn n it) with
          | None => None
          | Some groups => Some (chunk :: groups)
          end
      end
  end.

(** ** numpy arrays of the base types *)

(** The numpy scalar types that [np.sctypeDict] gives for the nine struct
    codes. *)
Inductive np_sctype : Type :=
| np_int8 | np_uint8 | np_int16 | np_uint16 | np_intc | np_uintc
| np_float16 | np_float32 | np_float64.

Definition np_sctype_eqb (a b : np_sctype) : bool :=
  match a, b with
  | np_int8, np_int8 | np_uint8, np_uint8 | np_int16, np_int16
  | np_uint16, np_uint16 | np_intc, np_intc | np_uintc, np_uintc
  | np_float16, np_float16 | np_float32, np_float32
  | np_float64, np_float64 => true
  | _, _ => false
  end.

(** [np.sctypeDict[code]] *)
Definition sctypeDict (code : ascii) : np_sctype :=
  match code with
  | "b"%char => np_int8 | "B"%char => np_uint8
  | "h"%char => np_int16 | "H"%char => np_uint16
  | "i"%char => np_intc | "I"%char => np_uintc
  | "e"%char => np_float16 | "f"%char => np_float32
  | _ => np_float64
  end.

(** A two-dimensional C-contiguous array: its scalar type and, row by row, the
    [itemsize] bytes that hold each element. *)
Record ndarray : Type := mkArray {
  dtype : np_sctype;
  items : list (list (list Byte.byte))
}.

(** [array.tobytes()] *)
Definition tobytes (array : ndarray) : list Byte.byte :=
  concat (map (@concat Byte.byte) (items array)).

(** ** QVector3D and rows of numeric arrays *)

Local Open Scope Q_scope.

Record vec3d : Type := mkVec3d { x : Q; y : Q; z : Q }.

(** A vertex as an iterator yields it: [v[0]], [v[1]], [v[2]]. *)
Definition vertex : Type := (Q * Q * Q)%type.
Definition v_0 (v : vertex) : Q := fst (fst v).
Definition v_1 (v : vertex) : Q := snd (fst v).
Definition v_2 (v : vertex) : Q := snd v.

(** The builtins [min(a, b)] and [max(a, b)]: the first argument unless the
    second is strictly smaller (larger). *)
Definition py_min (a b : Q) : Q :=
  match b ?= a with Lt => b | _ => a end.
Definition py_max (a b : Q) : Q :=
  match b ?= a with Gt => b | _ => a end.

(** [vec3d()] is the zero vector. *)
Definition vec3d_zero : vec3d := mkVec3d 0 0 0.
Definition vec3d_add (a b : vec3d) : vec3d :=
  mkVec3d (x a + x b) (y a + y b) (z a + z b).
Definition vec3d_sub (a b : vec3d) : vec3d :=
  mkVec3d (x a - x b) (y a - y b) (z a - z b).
Definition vec3d_div (a : vec3d) (k : Q) : vec3d :=
  mkVec3d (x a / k) (y a / k) (z a / k).

(** A row of a padded (homogeneous) coordinate array. *)
Definition row4 : Type := (Q * Q * Q * Q)%type.

(** A 4 x 4 array, by rows. *)
Record mat4 : Type := mkMat4 { r0 : row4; r1 : row4; r2 : row4; r3 : row4 }.

Definition row4_scale (k : Q) (r : row4) : row4 :=
  let '(a, b, c, d) := r in (k * a, k * b, k * c, k * d).
Definition row4_add (r s : row4) : row4 :=
  let '(a, b, c, d) := r in
  let '(a', b', c', d') := s in (a + a', b + b', c + c', d + d').

(** [np.dot(M, A)] for an [n] x 4 array [M]. *)
Definition row4_dot (r : row4) (A : mat4) : row4 :=
  let '(a, b, c, d) := r in
  row4_add (row4_add (row4_scale a (r0 A)) (row4_scale b (r1 A)))
           (row4_add (row4_scale c (r2 A)) (row4_scale d (r3 A))).
Definition np_dot (M : list row4) (A : mat4) : list row4 :=
  map (fun r => row4_dot r A) M.

(** Squared distance of two rows, and the squared Frobenius norm of
    [np.dot(X, A) - Y]. *)
Definition row4_sqdist (r s : row4) : Q :=
  let '(a, b, c, d) := r in
  let '(a', b', c', d') := s in
  (a - a') * (a - a') + (b - b') * (b - b')
  + (c - c') * (c - c') + (d - d') * (d - d').
Fixpoint residual (X Y : list row4) (A : mat4) : Q :=
  match X, Y with
  | r :: X', s :: Y' => row4_sqdist (row4_dot r A) s + residual X' Y' A
  | _, _ => 0
  end.

(** The contract of [np.linalg.lstsq(X, Y)] for its first result [A]: it
    minimises the norm of [np.dot(X, A) - Y]. *)
Definition least_squares (X Y : list row4) (A : mat4) : Prop :=
  forall B : mat4, residual X Y A <= residual X Y B.

(** The body shared, statement for statement, by the loop of [AABB.__init__]
    and the loop of [compute_AABB]: one vertex folded into the running
    minimums and maximums. *)
Definition fold_vertex (mm : vec3d * vec3d) (v : vertex) : vec3d * vec3d :=
  let (mn, mx) := mm in
  (mkVec3d (py_min (x mn) (v_0 v)) (py_min (y mn) (v_1 v))
           (py_min (z mn) (v_2 v)),
   mkVec3d (py_max (x mx) (v_0 v)) (py_max (y mx) (v_1 v))
           (py_max (z mx) (v_2 v))).

Local Close Scope Q_scope.

(** ** Qt3D attributes as the code creates and searches them *)

(** [Qt3DRender.QAttribute(parent)]: a new attribute with Qt's defaults (no
    name, base type Float, vertex size 1, no buffer; stride, offset and count
    0). *)
Definition new_QAttribute : QAttribute :=
  mkAttr EmptyString Float 1 VertexAttribute [] 0 0 0.

Definition setVertexBaseType (t : VertexBaseType) (att : QAttribute)
  : QAttribute :=
  mkAttr (name att) t (vertexSize att) (attributeType att) (buffer att)
    (byteStride att) (byteOffset att) (count att).
Definition setAttributeType (ty : AttributeType) (att : QAttribute)
  : QAttribute :=
  mkAttr (name att) (vertexBaseType att) (vertexSize att) ty (buffer att)
    (byteStride att) (byteOffset att) (count att).
Definition setBuffer (data : list Byte.byte) (att : QAttribute) : QAttribute :=
  mkAttr (name att) (vertexBaseType att) (vertexSize att) (attributeType att)
    data (byteStride att) (byteOffset att) (count att).
Definition setCount (n : nat) (att : QAttribute) : QAttribute :=
  mkAttr (name att) (vertexBaseType att) (vertexSize att) (attributeType att)
    (buffer att) (byteStride att) (byteOffset att) n.

Definition AttributeType_eqb (a b : AttributeType) : bool :=
  match a, b with
  | VertexAttribute, VertexAttribute | IndexAttribute, IndexAttribute => true
  | _, _ => false
  end.

(** [Qt3DRender.QAttribute.defaultPositionAttributeName()] *)
Definition defaultPositionAttributeName : string := "vertexPosition".

(** [array.size]: the number of elements of the array. *)
Definition np_size (array : ndarray) : nat := length (concat (items array)).

(** ** geom.py *)

Module Geom.

(** [iterAttr(att)]: iterator over a [QAttribute]. *)
Definition iterAttr (att : QAttribute) : run (list pyval) :=
  let basetype := vertexBaseType att in
  let width := basetype_widths basetype in
  let struct_code := basetype_struct_codes basetype in
  let att_data := buffer att in
  let byteOffset := byteOffset att in
  let count := count att in
  (* Support index attributes, which report zero stride and size *)
  let byteStride := if byteStride att =? 0 then width else byteStride att in
  let vertex_size := if vertexSize att =? 0 then 1 else vertexSize att in
  match py_range byteOffset (byteOffset + byteStride * count) byteStride with
  | inl e => mkRun [] [] (Some e)
  | inr starts =>
      for_yield
        (fun i =>
           read_slice att_data i (i + width * vertex_size)
             (struct_unpack struct_code vertex_size))
        starts
  end.

(** [yield n-sized lists of items from iterator i]: the [zip_longest] recipe.
    [None] inside a group is the fill value.  One pass per group and a last
    one that finds the iterator exhausted: [S (length i)] passes. *)
Definition grouper {A : Type} (i : list A) (n : nat)
  : option (list (list (option A))) :=
  zip_longest_shared (S (length i)) n i.

(** Map of Qt3D base types to numpy types, and the reverse: the dictionary
    built from the items of the first, looked up by key. *)
Definition all_basetypes : list VertexBaseType :=
  [Byte; UnsignedByte; Short; UnsignedShort; Int; UnsignedInt;
   HalfFloat; Float; Double].
Definition basetype_numpy_codes (t : VertexBaseType) : np_sctype :=
  sctypeDict (basetype_struct_codes t).
Definition basetype_numpy_codes_reverse (ty : np_sctype)
  : exn + VertexBaseType :=
  match
    find (fun k => np_sctype_eqb (basetype_numpy_codes k) ty) all_basetypes
  with
  | Some k => inr k
  | None => inl KeyError
  end.

(** [AttrSpec = namedtuple('AttrSpec', 'name, column, numcols')] *)
Record AttrSpec : Type := mkAttrSpec {
  asp_name : string;
  column : nat;
  numcols : nat
}.

(** [buildVertexAttrs(parent, array, attrspecs)]; the Qt parent object plays
    no part in the attributes' contents. *)
Definition buildVertexAttrs (array : ndarray) (attrspecs : list AttrSpec)
  : exn + list QAttribute :=
  (* Measure the input array *)
  let rows := length (items array) in
  match items array with
  | [] => inl IndexError                      (* array[0] *)
  | row0 :: _ =>
      let columns := length row0 in
      match basetype_numpy_codes_reverse (dtype array) with
      | inl e => inl e
      | inr basetype =>
          let basetype_width := basetype_widths basetype in
          let row_width := columns * basetype_width in
          (* Convert input to a qt buffer *)
          let rawstring := tobytes array in
          inr (map
                 (fun asp =>
                    mkAttr (asp_name asp) basetype (numcols asp)
                      VertexAttribute rawstring row_width
                      (column asp * basetype_width) rows)
                 attrspecs)
      end
  end.

Local Open Scope Q_scope.

(** An axis-aligned bounding box around the given geometry. *)
Record AABB : Type := mkAABB { min : vec3d; max : vec3d; center : vec3d }.

(** [AABB.__init__], from the iterator [it] over the vertices. *)
Definition AABB_init (it : list vertex) : exn + AABB :=
  match it with
  | [] => inl StopIteration                   (* v0 = next(it) *)
  | v0 :: rest =>
      let min0 := mkVec3d (v_0 v0) (v_1 v0) (v_2 v0) in
      let max0 := min0 in
      let (mn, mx) := fold_left fold_vertex rest (min0, max0) in
      inr (mkAABB mn mx (vec3d_div (vec3d_add mn mx) 2))
  end.

(** Iterator over the eight corners of the AABB. *)
Definition iterCorners {P : Type} (self : AABB) (cons : Q -> Q -> Q -> P)
  : list P :=
  flat_map
    (fun x' =>
       flat_map
         (fun y' => map (fun z' => cons x' y' z') [z (min self); z (max self)])
         [y (min self); y (max self)])
    [x (min self); x (max self)].

Definition dimensions (self : AABB) : Q * Q * Q :=
  let v := vec3d_sub (max self) (min self) in (x v, y v, z v).

(** The pieces of [transformBetween]. *)
Definition np_coords_from_aabb (aabb : AABB) : list vertex :=
  iterCorners aabb (fun a b c => (a, b, c)).

Definition all_zero (xs : list Q) : bool :=
  forallb (fun a => Qeq_bool a 0) xs.

(** [M[:,2]] and [M[rows,2] = v]; every array here has eight rows, so the
    row numbers used are always in range. *)
Definition column2 (M : list vertex) : list Q := map v_2 M.
Definition set_column2 (rows : list nat) (v : Q) (M : list vertex)
  : list vertex :=
  map (fun ir : nat * vertex =>
         let (i, r) := ir in
         if existsb (Nat.eqb i) rows then (v_0 r, v_1 r, v) else r)
      (combine (seq 0 (length M)) M).

Definition pad (M : list vertex) : list row4 :=
  map (fun r => (v_0 r, v_1 r, v_2 r, 1)) M.
Definition unpad (M : list row4) : list vertex :=
  map (fun r : row4 => let '(a, b, c, _) := r in (a, b, c)) M.

(** Float division: a zero divisor raises. *)
Definition py_div (a b : Q) : exn + Q :=
  if Qeq_bool b 0 then inl ZeroDivisionError else inr (a / b).

(** The two coordinate arrays handed to the solver, after the correction for
    flat boxes. *)
Definition fit_coords (aabb1 aabb2 : AABB)
  : exn + (list vertex * list vertex) :=
  let coord_from := np_coords_from_aabb aabb1 in
  let coord_to := np_coords_from_aabb aabb2 in
  if all_zero (column2 coord_to) && all_zero (column2 coord_from) then
    (* Both boxes are flat in Z, so ensure Z direction scales uniformly with
       x and y in the returned transformation *)
    let span_from := fst (dimensions aabb1) in
    let span_to := fst (dimensions aabb2) in
    match py_div (fst span_to) (fst span_from) with
    | inl e => inl e
    | inr ratio_x =>
        match py_div (snd span_to) (snd span_from) with
        | inl e => inl e
        | inr ratio_y =>
            let ratio := (ratio_x + ratio_y) / 2 in
            let min_rows := [0; 2; 4; 6]%nat in
            let max_rows := [1; 3; 5; 7]%nat in
            inr (set_column2 max_rows 1 (set_column2 min_rows (-1) coord_from),
                 set_column2 max_rows ratio
                   (set_column2 min_rows (- ratio) coord_to))
        end
    end
  else inr (coord_from, coord_to).

(** [transformBetween(aabb1, aabb2)]: a function mapping corners of [aabb1]
    onto those of [aabb2].  [lstsq] stands for the first result of
    [np.linalg.lstsq(X, Y, rcond=None)]. *)
Definition transformBetween (lstsq : list row4 -> list row4 -> mat4)
  (aabb1 aabb2 : AABB) : exn + (list vertex -> list vertex) :=
  match fit_coords aabb1 aabb2 with
  | inl e => inl e
  | inr (coord_from, coord_to) =>
      let X := pad coord_from in
      let Y := pad coord_to in
      let A := lstsq X Y in
      inr (fun x' => unpad (np_dot (pad x') A))
  end.

Local Close Scope Q_scope.

(** [buildIndexAttr(parent, array)]: the setters it calls on a new
    attribute.  (The two assignments to [basetype_width] are never read.) *)
Definition buildIndexAttr (array : ndarray) : exn + QAttribute :=
  match basetype_numpy_codes_reverse (dtype array) with
  | inl e => inl e
  | inr basetype =>
      let rawstring := tobytes array in
      let attr := new_QAttribute in
      let attr := setVertexBaseType basetype attr in
      let attr := setAttributeType IndexAttribute attr in
      let attr := setBuffer rawstring attr in
      let attr := setCount (np_size array) attr in
      inr attr
  end.

(** [getQAttribute(geom, att_type, att_name)] over [geom.attributes()]; the
    name [None] matches every name. *)
Definition getQAttribute (geom : list QAttribute) (att_type : AttributeType)
  (att_name : option string) : option QAttribute :=
  find
    (fun att =>
       AttributeType_eqb (attributeType att) att_type
       && match att_name with
          | None => true
          | Some n => String.eqb (name att) n
          end)
    geom.

End Geom.

(** ** geomview.py *)

Module GeomView.

(** [iterAttr(att)]: one [struct.unpack] per component. *)
Definition iterAttr (att : QAttribute) : run (list pyval) :=
  let basetype := vertexBaseType att in
  let width := basetype_widths basetype in
  let struct_code := basetype_struct_codes basetype in
  let att_data := buffer att in
  let byteOffset := byteOffset att in
  let count := count att in
  let byteStride := if byteStride att =? 0 then width else byteStride att in
  let vertex_size := if vertexSize att =? 0 then width else vertexSize att in
  match py_range byteOffset (byteOffset + byteStride * count) byteStride with
  | inl e => mkRun [] [] (Some e)
  | inr starts =>
      for_yield
        (fun i =>
           comprehension
             (fun j =>
                read_slice att_data (i + j * width) (i + j * width + width)
                  (fun s =>
                     match struct_unpack struct_code 1 s with
                     | inl e => inl e
                     | inr vs =>
                         match vs with
                         | v :: _ => inr v
                         | [] => inl IndexError
                         end
                     end))
             (seq 0 vertex_size))
        starts
  end.

(** The [islice] recipe: lists of at most [n] items, until an empty one. *)
Definition grouper {A : Type} (i : list A) (n : nat)
  : option (list (list A)) :=
  islice_until_empty (S (length i)) n i.

(** [compute_AABB(geom)], from the iterator over the vertices of [geom]. *)
Definition compute_AABB (vertices : list vertex) : vec3d * vec3d :=
  let minimums := vec3d_zero in
  let maximums := vec3d_zero in
  fold_left fold_vertex vertices (minimums, maximums).

(** [getVertexAttr(geom)] over [geom.attributes()]. *)
Definition getVertexAttr (geom : list QAttribute) : option QAttribute :=
  find
    (fun att =>
       String.eqb (name att) "vertexPosition"
       && AttributeType_eqb (attributeType att) VertexAttribute)
    geom.

(** [wheelEvent]: the local [clamp] and the new field of view, from the
    camera's field of view and the vertical component of
    [event.angleDelta() / 25]. *)
Definition clamp (min_ max_ value : Q) : Q :=
  py_min (py_max value min_) max_.
Definition wheelEvent (fov : Q) (delta_y : Z) : Q :=
  clamp 5 150 (fov - inject_Z delta_y).

End GeomView.

(** ** mainwindow.py *)

Module MainWindow.

(** The builtin [max] of a generator of integers; an empty one raises
    [ValueError]. *)
Definition py_max_of (xs : list Z) : exn + Z :=
  match xs with
  | [] => inl ValueError
  | a :: rest => inr (fold_left Z.max rest a)
  end.

(** [QSizePolicy.Policy] *)
Inductive Policy : Type :=
| Fixed | Minimum | Maximum | Preferred | Expanding | MinimumExpanding
| Ignored.

(** What the code reads and writes of a page of the stacked widget: the
    width of its size hint, its two size policies, and the arguments of the
    last [setMinimumSize]. *)
Record Page : Type := mkPage {
  sizeHint_width : Z;
  horizontalPolicy : Policy;
  verticalPolicy : Policy;
  minimumSize : Z * Z
}.

(** [AutoResizingStackedWidget]: its attribute [k_max_width] and, of the
    [QStackedWidget] it extends, the pages and the current index. *)
Record AutoResizingStackedWidget : Type := mkStack {
  k_max_width : Z;
  pages : list Page;
  currentIndex : Z
}.

(** [__init__] leaves [k_max_width] at -1; an empty [QStackedWidget] has the
    current index -1. *)
Definition AutoResizingStackedWidget_init : AutoResizingStackedWidget :=
  mkStack (-1) [] (-1).

Definition _updateSizePolicy (self : AutoResizingStackedWidget)
  (current_idx : Z) : exn + AutoResizingStackedWidget :=
  match py_max_of (map sizeHint_width (pages self)) with
  | inl e => inl e
  | inr max_width =>
      let k := Z.max (k_max_width self) max_width in
      inr (mkStack k
             (map (fun ip : nat * Page =>
                     let (page_idx, page) := ip in
                     let h_policy := horizontalPolicy page in
                     let v_policy :=
                       if (Z.of_nat page_idx =? current_idx)%Z
                       then Maximum else Ignored in
                     mkPage (sizeHint_width page) h_policy v_policy (k, 0%Z))
                  (combine (seq 0 (length (pages self))) (pages self)))
             (currentIndex self))
  end.

(** [QStackedWidget.setCurrentIndex]: an index without a page changes
    nothing. *)
Definition QStackedWidget_setCurrentIndex (self : AutoResizingStackedWidget)
  (idx : Z) : AutoResizingStackedWidget :=
  if ((0 <=? idx) && (idx <? Z.of_nat (length (pages self))))%Z
  then mkStack (k_max_width self) (pages self) idx
  else self.

Definition setCurrentIndex (self : AutoResizingStackedWidget) (idx : Z)
  : exn + AutoResizingStackedWidget :=
  (* Only if this is actually an index change do we fool with our size
     policy *)
  let updated :=
    if ((k_max_width self <? 0) || negb (idx =? currentIndex self))%Z
    then _updateSizePolicy self idx
    else inr self in
  match updated with
  | inl e => inl e
  | inr self' => inr (QStackedWidget_setCurrentIndex self' idx)
  end.

(** Python strings, for [prettyNameFromPath]; the characters are taken to be
    ASCII. *)

(** [s.split(sep)] for a separator of one character. *)
Fixpoint split_pair (sep : ascii) (s : string) : string * list string :=
  match s with
  | EmptyString => (EmptyString, [])
  | String c rest =>
      let (w, ws) := split_pair sep rest in
      if Ascii.eqb c sep then (EmptyString, w :: ws) else (String c w, ws)
  end.
Definition py_split (sep : ascii) (s : string) : list string :=
  let (w, ws) := split_pair sep s in w :: ws.

Definition is_digit (c : ascii) : bool :=
  (48 <=? nat_of_ascii c) && (nat_of_ascii c <=? 57).
Definition is_lower (c : ascii) : bool :=
  (97 <=? nat_of_ascii c) && (nat_of_ascii c <=? 122).
Definition is_upper (c : ascii) : bool :=
  (65 <=? nat_of_ascii c) && (nat_of_ascii c <=? 90).
Definition to_upper (c : ascii) : ascii :=
  if is_lower c then ascii_of_nat (nat_of_ascii c - 32) else c.
Definition to_lower (c : ascii) : ascii :=
  if is_upper c then ascii_of_nat (nat_of_ascii c + 32) else c.

Fixpoint string_forall (f : ascii -> bool) (s : string) : bool :=
  match s with
  | EmptyString => true
  | String c rest => f c && string_forall f rest
  end.
Fixpoint string_map (f : ascii -> ascii) (s : string) : string :=
  match s with
  | EmptyString => EmptyString
  | String c rest => String (f c) (string_map f rest)
  end.

(** [s.isdigit()]: at least one character, all of them digits. *)
Definition isdigit (s : string) : bool :=
  match s with
  | EmptyString => false
  | _ => string_forall is_digit s
  end.

(** [s.capitalize()]: the first character in upper case, the others in
    lower case. *)
Definition capitalize (s : string) : string :=
  match s with
  | EmptyString => EmptyString
  | String c rest => String (to_upper c) (string_map to_lower rest)
  end.

(** [sep.join(words)] *)
Fixpoint join (sep : string) (words : list string) : string :=
  match words with
  | [] => EmptyString
  | [w] => w
  | w :: rest => (w ++ sep ++ join sep rest)%string
  end.

(** [FileSelectionTreeWidget.prettyNameFromPath(input_path)], from
    [input_path.stem]: make words from the file stem, capitalize them, omit a
    leading number if possible. *)
Definition prettyNameFromPath (stem : string) : string :=
  let words := py_split "_" stem in
  let words :=
    if (1 <? length words) && isdigit (hd EmptyString words)
    then tl words else words in
  join " " (map capitalize words).

(** [UiLoader]: the base instance and the dictionary of custom widget
    classes, by class name.  A class is what makes a widget from a parent. *)
Section UiLoader.
Variable widget : Type.
(** [QUiLoader.createWidget(className, parent, name)] *)
Variable super_createWidget : string -> widget -> string -> widget.

Record UiLoader : Type := mkUiLoader {
  baseInstance : widget;
  customWidgets : list (string * (widget -> widget))
}.

(** [d[key] = value] and [d.get(key)] on a dictionary kept as a list. *)
Definition dict_set {V : Type} (key : string) (value : V)
  (d : list (string * V)) : list (string * V) :=
  (key, value) :: filter (fun kv => negb (String.eqb (fst kv) key)) d.
Definition dict_get {V : Type} (key : string) (d : list (string * V))
  : option V :=
  match find (fun kv => String.eqb (fst kv) key) d with
  | Some kv => Some (snd kv)
  | None => None
  end.

Definition UiLoader_init (baseInstance : widget) : UiLoader :=
  mkUiLoader baseInstance [].

(** [registerCustomWidget(cls)], with [cls.__name__] given. *)
Definition registerCustomWidget (cls_name : string) (cls : widget -> widget)
  (self : UiLoader) : UiLoader :=
  mkUiLoader (baseInstance self) (dict_set cls_name cls (customWidgets self)).

Definition createWidget (self : UiLoader) (className : string)
  (parent : option widget) (name : string) : widget :=
  match parent with
  | None =>
      (* Don't create a new one, return the existing one. *)
      baseInstance self
  | Some parent =>
      match dict_get className (customWidgets self) with
      | Some cls => cls parent
      | None => super_createWidget className parent name
      end
  end.
End UiLoader.

End MainWindow.

(** * Vocabulary of the statements *)

(** The stride, the number of components and the start of element [k] that
    [geom.iterAttr] works with, after its two substitutions for zero. *)
Definition eff_stride (att : QAttribute) : nat :=
  if byteStride att =? 0 then basetype_widths (vertexBaseType att)
  else byteStride att.
Definition eff_size (att : QAttribute) : nat :=
  if vertexSize att =? 0 then 1 else vertexSize att.
Definition element_start (att : QAttribute) (k : nat) : nat :=
  byteOffset att + k * eff_stride att.

(** Element [k] lies inside the buffer. *)
Definition fits (att : QAttribute) (k : nat) : Prop :=
  element_start att k + basetype_widths (vertexBaseType att) * eff_size att
  <= length (buffer att).

(** The tuple decoded from position [i]: [n] components of [w] bytes. *)
Definition tuple_from (code : ascii) (data : list Byte.byte) (w n i : nat)
  : list pyval :=
  map (fun j => unpack_scalar code (py_slice data (i + j * w) (i + j * w + w)))
      (seq 0 n).

(** The tuple of element [k]: its components decoded one after the other. *)
Definition tuple_at (att : QAttribute) (k : nat) : list pyval :=
  tuple_from (basetype_struct_codes (vertexBaseType att)) (buffer att)
    (basetype_widths (vertexBaseType att)) (eff_size att)
    (element_start att k).

(** The number of components [geomview.iterAttr] works with. *)
Definition eff_size_view (att : QAttribute) : nat :=
  if vertexSize att =? 0 then basetype_widths (vertexBaseType att)
  else vertexSize att.

(** [struct.unpack(code, s)[0]], as [geomview.iterAttr] reads one component. *)
Definition unpack_first (code : ascii) (s : list Byte.byte) : exn + pyval :=
  match struct_unpack code 1 s with
  | inl e => inl e
  | inr vs => match vs with v :: _ => inr v | [] => inl IndexError end
  end.

(** Sample data: bytes by their numbers. *)
Definition byte_of (n : N) : Byte.byte :=
  match Byte.of_N n with Some b => b | None => Byte.x00 end.

(** Five one-byte elements declared over a buffer of four bytes. *)
Definition att_short : QAttribute :=
  mkAttr "index" UnsignedByte 1 IndexAttribute
    (map byte_of [1; 2; 3; 4]%N) 1 0 5.

(** An index attribute as [buildIndexAttr] leaves it (zero stride and size)
    over three 16-bit values. *)
Definition att_index16 : QAttribute :=
  mkAttr "indices" UnsignedShort 0 IndexAttribute
    (map byte_of [1; 0; 2; 0; 3; 0]%N) 0 0 3.

(** A vertex attribute of two 16-bit components per element. *)
Definition att_pairs : QAttribute :=
  mkAttr "position" Short 2 VertexAttribute
    (map byte_of [1; 0; 2; 0; 255; 255; 4; 0]%N) 4 0 2.

(** The struct code and the item size of a numpy scalar type. *)
Definition sctype_code (ty : np_sctype) : ascii :=
  match ty with
  | np_int8 => "b" | np_uint8 => "B" | np_int16 => "h" | np_uint16 => "H"
  | np_intc => "i" | np_uintc => "I"
  | np_float16 => "e" | np_float32 => "f" | np_float64 => "d"
  end%char.
Definition itemsize (ty : np_sctype) : nat := calcsize (sctype_code ty).

(** The Python number that an element of an array stands for. *)
Definition item_value (ty : np_sctype) (item : list Byte.byte) : pyval :=
  unpack_scalar (sctype_code ty) item.

(** A rectangular array: rows of one length, items of the item size. *)
Definition num_columns (array : ndarray) : nat :=
  match items array with [] => 0 | row0 :: _ => length row0 end.
Definition rectangular (array : ndarray) : Prop :=
  Forall (fun row => length row = num_columns array) (items array)
  /\ Forall (Forall (fun item => length item = itemsize (dtype array)))
       (items array).

(** The columns of [array] that [asp] names, row by row:
    [array[:, column : column + numcols]]. *)
Definition columns_of (array : ndarray) (asp : Geom.AttrSpec)
  : list (list pyval) :=
  map (fun row =>
         map (item_value (dtype array))
           (py_slice row (Geom.column asp)
              (Geom.column asp + Geom.numcols asp)))
      (items array).

(** The column ranges of the specs cover the columns [0 .. columns-1], each
    exactly once. *)
Definition covers_once (columns : nat) (attrspecs : list Geom.AttrSpec)
  : Prop :=
  Permutation
    (flat_map (fun asp => seq (Geom.column asp) (Geom.numcols asp)) attrspecs)
    (seq 0 columns).

(** Two rows of three 32-bit floats (1, 2, 3 and 4, 5, 6), read as a
    position of two columns followed by a weight of one. *)
Definition sample_array : ndarray :=
  mkArray np_float32
    [ [ map byte_of [0; 0; 128; 63]%N; map byte_of [0; 0; 0; 64]%N;
        map byte_of [0; 0; 64; 64]%N ];
      [ map byte_of [0; 0; 128; 64]%N; map byte_of [0; 0; 160; 64]%N;
        map byte_of [0; 0; 192; 64]%N ] ].
Definition sample_specs : list Geom.AttrSpec :=
  [ Geom.mkAttrSpec "position" 0 2; Geom.mkAttrSpec "weight" 2 1 ].

(** The number of arguments of [zip_longest] that are still the shared
    iterator. *)
Fixpoint live (slots : list slot) : nat :=
  match slots with
  | [] => 0
  | Live :: rest => S (live rest)
  | Filler :: rest => live rest
  end.

(** Numeric equality of vectors and of boxes. *)
Definition vec3d_eq (a b : vec3d) : Prop :=
  (x a == x b /\ y a == y b /\ z a == z b)%Q.
Definition box_eq (a b : Geom.AABB) : Prop :=
  vec3d_eq (Geom.min a) (Geom.min b)
  /\ vec3d_eq (Geom.max a) (Geom.max b)
  /\ vec3d_eq (Geom.center a) (Geom.center b).
Definition vertex_eq (a b : vertex) : Prop :=
  (v_0 a == v_0 b /\ v_1 a == v_1 b /\ v_2 a == v_2 b)%Q.

(** [m] is the least (greatest) of the numbers [xs]. *)
Definition is_min (m : Q) (xs : list Q) : Prop :=
  (exists a, In a xs /\ (a == m)%Q) /\ forall a, In a xs -> (m <= a)%Q.
Definition is_max (m : Q) (xs : list Q) : Prop :=
  (exists a, In a xs /\ (a == m)%Q) /\ forall a, In a xs -> (a <= m)%Q.

(** Vertices strictly inside the positive (negative) octant. *)
Definition positive_octant (v : vertex) : Prop :=
  (0 < v_0 v /\ 0 < v_1 v /\ 0 < v_2 v)%Q.
Definition negative_octant (v : vertex) : Prop :=
  (v_0 v < 0 /\ v_1 v < 0 /\ v_2 v < 0)%Q.

(** The box with the given extreme corners, as [AABB.__init__] fills it. *)
Definition box_of (mn mx : vec3d) : Geom.AABB :=
  Geom.mkAABB mn mx (vec3d_div (vec3d_add mn mx) 2).

(** The box around the sample vertices below. *)
Definition sample_box : Geom.AABB :=
  box_of (mkVec3d 1 1 1) (mkVec3d 3 3 3).

(** Sample vertices. *)
Definition sample_vertices : list vertex :=
  [ (1, 2, 3); (3, 1, 2); (2, 3, 1) ]%Q.
Definition sample_vertices_permuted : list vertex :=
  [ (2, 3, 1); (1, 2, 3); (3, 1, 2) ]%Q.

(** Numeric equality of padded rows. *)
Definition row4_eq (r s : row4) : Prop :=
  let '(a, b, c, d) := r in
  let '(a', b', c', d') := s in
  (a == a' /\ b == b' /\ c == c' /\ d == d')%Q.

(** A box with positive extent on the three axes, and a box flat in Z. *)
Definition proper (b : Geom.AABB) : Prop :=
  (x (Geom.min b) < x (Geom.max b) /\ y (Geom.min b) < y (Geom.max b)
   /\ z (Geom.min b) < z (Geom.max b))%Q.
Definition flat (b : Geom.AABB) : Prop :=
  (z (Geom.min b) == 0 /\ z (Geom.max b) == 0)%Q.

(** The average of the X and Y scale ratios from [b1] to [b2]. *)
Definition average_ratio (b1 b2 : Geom.AABB) : Q :=
  (((x (Geom.max b2) - x (Geom.min b2)) / (x (Geom.max b1) - x (Geom.min b1))
    + (y (Geom.max b2) - y (Geom.min b2))
      / (y (Geom.max b1) - y (Geom.min b1))) / 2)%Q.

(** The corners of [b] in the order of [iterCorners], with [zlow] in place of
    the Z of the lower corners and [zhigh] in place of the Z of the upper
    ones. *)
Definition corners_with_z (zlow zhigh : Q) (b : Geom.AABB) : list vertex :=
  [ (x (Geom.min b), y (Geom.min b), zlow);
    (x (Geom.min b), y (Geom.min b), zhigh);
    (x (Geom.min b), y (Geom.max b), zlow);
    (x (Geom.min b), y (Geom.max b), zhigh);
    (x (Geom.max b), y (Geom.min b), zlow);
    (x (Geom.max b), y (Geom.min b), zhigh);
    (x (Geom.max b), y (Geom.max b), zlow);
    (x (Geom.max b), y (Geom.max b), zhigh) ].

(** The affine map, as a 4 x 4 array acting on padded rows, that scales and
    shifts each axis so that the extent of [b1] lands on that of [b2]. *)
Definition fit_matrix (b1 b2 : Geom.AABB) : mat4 :=
  let sx := ((x (Geom.max b2) - x (Geom.min b2))
             / (x (Geom.max b1) - x (Geom.min b1)))%Q in
  let sy := ((y (Geom.max b2) - y (Geom.min b2))
             / (y (Geom.max b1) - y (Geom.min b1)))%Q in
  let sz := ((z (Geom.max b2) - z (Geom.min b2))
             / (z (Geom.max b1) - z (Geom.min b1)))%Q in
  mkMat4 (sx, 0, 0, 0)%Q (0, sy, 0, 0)%Q (0, 0, sz, 0)%Q
    (x (Geom.min b2) - sx * x (Geom.min b1),
     y (Geom.min b2) - sy * y (Geom.min b1),
     z (Geom.min b2) - sz * z (Geom.min b1), 1)%Q.

(** Sample boxes: the unit cube and a 2 x 3 x 4 box centred at the origin,
    and two boxes flat in Z. *)
Definition unit_cube : Geom.AABB :=
  box_of (mkVec3d (-1 # 2) (-1 # 2) (-1 # 2)) (mkVec3d (1 # 2) (1 # 2) (1 # 2)).
Definition box_2x3x4 : Geom.AABB :=
  box_of (mkVec3d (-1) (-3 # 2) (-2)) (mkVec3d 1 (3 # 2) 2).
Definition flat_from : Geom.AABB :=
  box_of (mkVec3d 0 0 0) (mkVec3d 2 4 0).
Definition flat_to : Geom.AABB :=
  box_of (mkVec3d 0 0 0) (mkVec3d 4 8 0).

(** Answers of a solver on the sample boxes: pure scalings. *)
Definition scaling (sx sy sz : Q) : mat4 :=
  mkMat4 (sx, 0, 0, 0)%Q (0, sy, 0, 0)%Q (0, 0, sz, 0)%Q (0, 0, 0, 1)%Q.
Definition lstsq_cube : list row4 -> list row4 -> mat4 :=
  fun _ _ => scaling 2 3 4.
Definition lstsq_flat : list row4 -> list row4 -> mat4 :=
  fun _ _ => scaling 2 2 2.

(** A group of [geomview.grouper] as [geom.grouper] yields it: its items,
    then the fill value up to [n] entries. *)
Definition pad_group {A : Type} (n : nat) (g : list A) : list (option A) :=
  map Some g ++ repeat None (n - length g).

(** Element [k] lies inside the buffer, for the number of components that
    [geomview.iterAttr] works with, and the tuple it decodes there. *)
Definition fits_view (att : QAttribute) (k : nat) : Prop :=
  element_start att k
  + basetype_widths (vertexBaseType att) * eff_size_view att
  <= length (buffer att).
Definition tuple_view_at (att : QAttribute) (k : nat) : list pyval :=
  tuple_from (basetype_struct_codes (vertexBaseType att)) (buffer att)
    (basetype_widths (vertexBaseType att)) (eff_size_view att)
    (element_start att k).

(** An index array of two triangles, 16-bit unsigned. *)
Definition sample_triangles : ndarray :=
  mkArray np_uint16
    [ [ map byte_of [0; 0]%N; map byte_of [1; 0]%N; map byte_of [2; 0]%N ];
      [ map byte_of [2; 0]%N; map byte_of [1; 0]%N; map byte_of [3; 0]%N ] ].

(** A stacked widget with two pages, before any call of
    [setCurrentIndex]. *)
Definition sample_stack : MainWindow.AutoResizingStackedWidget :=
  MainWindow.mkStack (-1)
    [ MainWindow.mkPage 120 MainWindow.Preferred MainWindow.Preferred (0, 0);
      MainWindow.mkPage 200 MainWindow.Expanding MainWindow.Preferred (0, 0) ]%Z
    0.

(** A page as [_updateSizePolicy] leaves it: its size hint and horizontal
    policy kept, its minimum width [k], its vertical policy [Maximum] for the
    page numbered [current_idx] and [Ignored] for the others. *)
Definition page_after (k current_idx : Z) (page_idx : nat)
  (page : MainWindow.Page) : MainWindow.Page :=
  MainWindow.mkPage (MainWindow.sizeHint_width page)
    (MainWindow.horizontalPolicy page)
    (if (Z.of_nat page_idx =? current_idx)%Z
     then MainWindow.Maximum else MainWindow.Ignored)
    (k, 0%Z).

(** Strings of ASCII characters, strings without a given character, and
    whether [prettyNameFromPath] omits the first word of a stem. *)
Definition is_ascii (s : string) : bool :=
  MainWindow.string_forall (fun c => nat_of_ascii c <? 128) s.
Definition has_no (sep : ascii) (s : string) : bool :=
  MainWindow.string_forall (fun c => negb (Ascii.eqb c sep)) s.
Definition drops_number (stem : string) : bool :=
  (1 <? length (MainWindow.py_split "_" stem))
  && MainWindow.isdigit (hd EmptyString (MainWindow.py_split "_" stem)).

(** A character in lower case, an underscore as a space. *)
Definition spaced_lower (c : ascii) : ascii :=
  if Ascii.eqb c "_" then " "%char else MainWindow.to_lower c.

(** * Python slices, ranges and generators *)

Lemma length_py_slice {A : Type} (data : list A) (i j : nat) :
  length (py_slice data i j) = Nat.min (j - i) (length data - i).
Proof.
  unfold py_slice. now rewrite length_firstn, length_skipn.
Qed.

Lemma py_slice_fits {A : Type} (data : list A) (i n : nat) :
  i + n <= length data -> length (py_slice data i (i + n)) = n.
Proof.
  intros H. rewrite length_py_slice. lia.
Qed.

Lemma py_slice_short {A : Type} (data : list A) (i n : nat) :
  0 < n -> length data < i + n -> length (py_slice data i (i + n)) < n.
Proof.
  intros Hn H. rewrite length_py_slice. lia.
Qed.

(** A slice of a slice's tail, and the head of a slice. *)
Lemma skipn_py_slice {A : Type} (data : list A) (i w n : nat) :
  skipn w (py_slice data i (i + (w + n))) = py_slice data (i + w) (i + w + n).
Proof.
  unfold py_slice.
  replace (i + (w + n) - i) with (w + n) by lia.
  replace (i + w + n - (i + w)) with n by lia.
  rewrite skipn_firstn_comm, skipn_skipn.
  f_equal; [lia | f_equal; lia].
Qed.

Lemma firstn_py_slice {A : Type} (data : list A) (i w n : nat) :
  firstn w (py_slice data i (i + (w + n))) = py_slice data i (i + w).
Proof.
  unfold py_slice.
  replace (i + (w + n) - i) with (w + n) by lia.
  replace (i + w - i) with w by lia.
  rewrite firstn_firstn. f_equal. lia.
Qed.

(** The positions listed by [slice_reads] are the ones the slice copies. *)
Lemma py_slice_reads {A : Type} (d : A) (data : list A) (i j : nat) :
  py_slice data i j = map (fun p => nth p data d) (slice_reads (length data) i j).
Proof.
  unfold py_slice, slice_reads.
  revert i j. induction data as [| a data IH]; intros i j.
  - simpl. rewrite skipn_nil, firstn_nil.
    replace (Nat.min j 0 - i) with 0 by lia. reflexivity.
  - destruct i as [| i].
    + rewrite Nat.sub_0_r. simpl skipn.
      destruct j as [| j]; [reflexivity |].
      simpl length. replace (Nat.min (S j) (S (length data)) - 0)
        with (S (Nat.min j (length data))) by lia.
      simpl. f_equal.
      specialize (IH 0 j). rewrite Nat.sub_0_r in IH. simpl skipn in IH.
      rewrite IH, Nat.sub_0_r, <- seq_shift, map_map. reflexivity.
    + simpl skipn. simpl length.
      destruct j as [| j].
      * simpl. reflexivity.
      * replace (S j - S i) with (j - i) by lia.
        replace (Nat.min (S j) (S (length data)) - S i)
          with (Nat.min j (length data) - i) by lia.
        rewrite IH, <- seq_shift, map_map. reflexivity.
Qed.

Lemma slice_reads_in_bounds (len i j : nat) :
  Forall (fun p => p < len) (slice_reads len i j).
Proof.
  unfold slice_reads. apply Forall_forall. intros p Hp.
  apply in_seq in Hp. lia.
Qed.

Lemma py_range_elements (start stride n : nat) :
  0 < stride ->
  py_range start (start + stride * n) stride
  = inr (map (fun k => start + k * stride) (seq 0 n)).
Proof.
  intros Hs. unfold py_range.
  destruct stride as [| s]; [lia |].
  do 3 f_equal.
  replace (start + S s * n - start + (S s - 1)) with (n * S s + s) by lia.
  symmetry. apply Nat.div_unique with (r := s); lia.
Qed.

(** What a consumer sees of a generator depends on the outcomes of the
    body, not on the positions read. *)
Lemma for_yield_ext {A : Type} (body1 body2 : nat -> step A) starts :
  (forall i, In i starts -> snd (body1 i) = snd (body2 i)) ->
  yielded (for_yield body1 starts) = yielded (for_yield body2 starts)
  /\ raised (for_yield body1 starts) = raised (for_yield body2 starts).
Proof.
  induction starts as [| i rest IH]; intros H; simpl; [auto |].
  pose proof (H i (or_introl eq_refl)) as Hi.
  destruct (body1 i) as [rd1 [e1 | d1]], (body2 i) as [rd2 [e2 | d2]];
    simpl in Hi; try discriminate; inversion Hi; subst; simpl; [auto |].
  destruct IH as [IH1 IH2]; [intros; apply H; now right |].
  now rewrite IH1, IH2.
Qed.

(** A run over elements that all succeed. *)
Lemma for_yield_all {A : Type} (body : nat -> step A) (val : nat -> A) starts :
  (forall i, In i starts -> snd (body i) = inr (val i)) ->
  yielded (for_yield body starts) = map val starts
  /\ raised (for_yield body starts) = None.
Proof.
  induction starts as [| i rest IH]; intros H; simpl; [auto |].
  pose proof (H i (or_introl eq_refl)) as Hi.
  destruct (body i) as [rd [e | d]]; simpl in Hi; [discriminate |].
  inversion Hi; subst. simpl.
  destruct IH as [IH1 IH2]; [intros; apply H; now right |].
  now rewrite IH1, IH2.
Qed.

(** A run that meets a failing element after a prefix of good ones. *)
Lemma for_yield_stops {A : Type} (body : nat -> step A) (val : nat -> A)
  (good : list nat) (bad : nat) (rest : list nat) (e : exn) :
  (forall i, In i good -> snd (body i) = inr (val i)) ->
  snd (body bad) = inl e ->
  yielded (for_yield body (good ++ bad :: rest)) = map val good
  /\ raised (for_yield body (good ++ bad :: rest)) = Some e.
Proof.
  induction good as [| i good IH]; intros Hg Hb; simpl.
  - destruct (body bad) as [rd [e' | d]]; simpl in Hb; [| discriminate].
    inversion Hb; subst. auto.
  - pose proof (Hg i (or_introl eq_refl)) as Hi.
    destruct (body i) as [rd [e' | d]]; simpl in Hi; [discriminate |].
    inversion Hi; subst. simpl.
    destruct IH as [IH1 IH2]; [intros; apply Hg; now right | assumption |].
    now rewrite IH1, IH2.
Qed.

Lemma for_yield_reads {A : Type} (P : nat -> Prop) (body : nat -> step A)
  starts :
  (forall i, Forall P (fst (body i))) ->
  Forall P (reads (for_yield body starts)).
Proof.
  intros H. induction starts as [| i rest IH]; simpl; [constructor |].
  specialize (H i). destruct (body i) as [rd [e | d]]; simpl in *; [assumption |].
  apply Forall_app. split; assumption.
Qed.

(** * The base type table and [struct.unpack] *)

Lemma basetype_widths_pos (t : VertexBaseType) : 0 < basetype_widths t.
Proof. destruct t; cbn; lia. Qed.

Lemma calcsize_struct_code (t : VertexBaseType) :
  calcsize (basetype_struct_codes t) = basetype_widths t.
Proof. destruct t; reflexivity. Qed.

Lemma eff_stride_pos (att : QAttribute) : 0 < eff_stride att.
Proof.
  unfold eff_stride. destruct (byteStride att =? 0) eqn:E.
  - apply basetype_widths_pos.
  - apply Nat.eqb_neq in E. lia.
Qed.

Lemma eff_size_pos (att : QAttribute) : 0 < eff_size att.
Proof.
  unfold eff_size. destruct (vertexSize att =? 0) eqn:E; [lia |].
  apply Nat.eqb_neq in E. lia.
Qed.

(** The [n] pieces of a slice of [n] items are the items' own slices. *)
Lemma chunks_py_slice (data : list Byte.byte) (w n i : nat) :
  chunks w n (py_slice data i (i + w * n))
  = map (fun j => py_slice data (i + j * w) (i + j * w + w)) (seq 0 n).
Proof.
  revert i. induction n as [| n IH]; intros i; [reflexivity |].
  replace (w * S n) with (w + w * n) by lia.
  simpl chunks. rewrite firstn_py_slice, skipn_py_slice, IH.
  simpl seq. simpl map. rewrite Nat.add_0_r. f_equal.
  rewrite <- seq_shift, map_map. apply map_ext. intros j.
  f_equal; lia.
Qed.

Lemma tuple_at_from (att : QAttribute) (k : nat) :
  tuple_at att k
  = tuple_from (basetype_struct_codes (vertexBaseType att)) (buffer att)
      (basetype_widths (vertexBaseType att)) (eff_size att)
      (element_start att k).
Proof. reflexivity. Qed.

Lemma struct_unpack_fits (code : ascii) (data : list Byte.byte) (n i : nat) :
  i + calcsize code * n <= length data ->
  struct_unpack code n (py_slice data i (i + calcsize code * n))
  = inr (tuple_from code data (calcsize code) n i).
Proof.
  intros H. unfold struct_unpack.
  rewrite py_slice_fits by assumption. rewrite Nat.eqb_refl.
  rewrite chunks_py_slice. unfold tuple_from. now rewrite map_map.
Qed.

Lemma struct_unpack_short (code : ascii) (data : list Byte.byte) (n i : nat) :
  0 < calcsize code * n ->
  length data < i + calcsize code * n ->
  struct_unpack code n (py_slice data i (i + calcsize code * n))
  = inl StructError.
Proof.
  intros Hpos H. unfold struct_unpack.
  pose proof (py_slice_short data i _ Hpos H) as Hl.
  destruct (Nat.eqb_spec (length (py_slice data i (i + calcsize code * n)))
                         (calcsize code * n)); [lia | reflexivity].
Qed.

(** * geom.iterAttr *)

(** The generator, spelled out over the element numbers. *)
Lemma geom_iterAttr_unfold (att : QAttribute) :
  Geom.iterAttr att
  = for_yield
      (fun i =>
         read_slice (buffer att) i
           (i + basetype_widths (vertexBaseType att) * eff_size att)
           (struct_unpack (basetype_struct_codes (vertexBaseType att))
                          (eff_size att)))
      (map (element_start att) (seq 0 (count att))).
Proof.
  unfold Geom.iterAttr. fold (eff_stride att). fold (eff_size att).
  rewrite py_range_elements by apply eff_stride_pos. reflexivity.
Qed.

Lemma geom_body_fits (att : QAttribute) (k : nat) :
  fits att k ->
  struct_unpack (basetype_struct_codes (vertexBaseType att)) (eff_size att)
    (py_slice (buffer att) (element_start att k)
       (element_start att k
        + basetype_widths (vertexBaseType att) * eff_size att))
  = inr (tuple_at att k).
Proof.
  unfold fits. intros H. rewrite tuple_at_from.
  rewrite <- calcsize_struct_code in *. now apply struct_unpack_fits.
Qed.

Lemma geom_body_short (att : QAttribute) (k : nat) :
  ~ fits att k ->
  struct_unpack (basetype_struct_codes (vertexBaseType att)) (eff_size att)
    (py_slice (buffer att) (element_start att k)
       (element_start att k
        + basetype_widths (vertexBaseType att) * eff_size att))
  = inl StructError.
Proof.
  unfold fits. intros H.
  pose proof (basetype_widths_pos (vertexBaseType att)) as Hw.
  pose proof (eff_size_pos att) as Hs.
  rewrite <- calcsize_struct_code in *.
  apply struct_unpack_short; [apply Nat.mul_pos_pos; assumption | lia].
Qed.

(** A run over an attribute whose elements all lie inside the buffer. *)
Lemma geom_iterAttr_complete (att : QAttribute) :
  (forall k, k < count att -> fits att k) ->
  yielded (Geom.iterAttr att) = map (tuple_at att) (seq 0 (count att))
  /\ raised (Geom.iterAttr att) = None.
Proof.
  intros Hall. rewrite geom_iterAttr_unfold.
  rewrite <- (map_map (element_start att) (fun i =>
    tuple_from (basetype_struct_codes (vertexBaseType att)) (buffer att)
      (basetype_widths (vertexBaseType att)) (eff_size att) i)).
  apply for_yield_all.
  intros i Hi. apply in_map_iff in Hi. destruct Hi as [k' [<- Hk']].
  apply in_seq in Hk'. simpl.
  rewrite <- tuple_at_from. apply geom_body_fits. apply Hall. lia.
Qed.

(** C1, as the code has it.  [geom.iterAttr] never copies a byte from a
    position outside [0, len(buffer)): a slice keeps only the positions that
    exist.  There is no check ahead of the reads.  When some element of the
    attribute does not lie inside the buffer, the generator first yields the
    tuple of every element before the first such element, reading them, and
    only then stops with [struct.error], raised by [struct.unpack] on the
    short slice.  When all elements lie inside the buffer it yields all
    [count] tuples and ends normally. *)
Theorem geom_iterAttr_bounds (att : QAttribute) :
  Forall (fun p => p < length (buffer att)) (reads (Geom.iterAttr att))
  /\ (forall k,
        k < count att -> ~ fits att k -> (forall k', k' < k -> fits att k') ->
        yielded (Geom.iterAttr att) = map (tuple_at att) (seq 0 k)
        /\ raised (Geom.iterAttr att) = Some StructError)
  /\ ((forall k, k < count att -> fits att k) ->
      yielded (Geom.iterAttr att) = map (tuple_at att) (seq 0 (count att))
      /\ raised (Geom.iterAttr att) = None).
Proof.
  rewrite geom_iterAttr_unfold. split; [| split].
  - apply for_yield_reads. intros i. apply slice_reads_in_bounds.
  - intros k Hk Hbad Hgood.
    replace (count att) with (k + S (count att - S k)) by lia.
    rewrite seq_app, map_app. simpl seq. simpl map.
    rewrite <- (map_map (element_start att) (fun i =>
      tuple_from (basetype_struct_codes (vertexBaseType att)) (buffer att)
        (basetype_widths (vertexBaseType att)) (eff_size att) i)).
    apply for_yield_stops.
    + intros i Hi. apply in_map_iff in Hi. destruct Hi as [k' [<- Hk']].
      apply in_seq in Hk'. simpl.
      rewrite <- tuple_at_from. apply geom_body_fits. apply Hgood. lia.
    + simpl. now apply geom_body_short.
  - rewrite <- geom_iterAttr_unfold. apply geom_iterAttr_complete.
Qed.

(** C1 as stated fails: over a buffer of four bytes, an attribute of five
    one-byte elements has an element outside the buffer, yet the decoder
    reads the four bytes and yields four tuples before it stops, and it stops
    with the host's [struct.error]. *)
Lemma geom_iterAttr_reads_before_failing :
  4 < count att_short /\ ~ fits att_short 4
  /\ reads (Geom.iterAttr att_short) = [0; 1; 2; 3]
  /\ yielded (Geom.iterAttr att_short)
     = [[PyInt 1]; [PyInt 2]; [PyInt 3]; [PyInt 4]]
  /\ raised (Geom.iterAttr att_short) = Some StructError.
Proof.
  repeat split; try reflexivity.
  - cbn. lia.
  - unfold fits. cbn. lia.
Qed.

Lemma geom_iterAttr_bounds_witness :
  yielded (Geom.iterAttr att_short) = map (tuple_at att_short) (seq 0 4)
  /\ raised (Geom.iterAttr att_short) = Some StructError.
Proof.
  apply (proj1 (proj2 (geom_iterAttr_bounds att_short)) 4).
  - cbn. lia.
  - unfold fits. cbn. lia.
  - intros k' Hk'. unfold fits. cbn. lia.
Defined.

(** * geomview.iterAttr against geom.iterAttr *)

Lemma comprehension_cons {A : Type} (f : nat -> step A) j rest :
  snd (comprehension f (j :: rest))
  = match snd (f j) with
    | inl e => inl e
    | inr v =>
        match snd (comprehension f rest) with
        | inl e => inl e
        | inr vs => inr (v :: vs)
        end
    end.
Proof.
  simpl. destruct (f j) as [rd [e | v]]; [reflexivity |].
  destruct (comprehension f rest) as [rd' [e | vs]]; reflexivity.
Qed.

Lemma comprehension_map {A : Type} (f : nat -> step A) (g : nat -> nat) js :
  comprehension f (map g js) = comprehension (fun j => f (g j)) js.
Proof.
  induction js as [| j js IH]; [reflexivity |].
  simpl. now rewrite IH.
Qed.

Lemma comprehension_ext {A : Type} (f g : nat -> step A) js :
  (forall j, f j = g j) -> comprehension f js = comprehension g js.
Proof.
  intros H. induction js as [| j js IH]; [reflexivity |].
  simpl. now rewrite H, IH.
Qed.

Lemma comprehension_length {A : Type} (f : nat -> step A) js vs :
  snd (comprehension f js) = inr vs -> length vs = length js.
Proof.
  revert vs. induction js as [| j js IH]; intros vs.
  - simpl. intros H. now inversion H.
  - rewrite comprehension_cons.
    destruct (snd (f j)) as [e | v]; [discriminate |].
    destruct (snd (comprehension f js)) as [e | vs']; [discriminate |].
    intros H. inversion H; subst. simpl. f_equal. now apply IH.
Qed.

Lemma unpack_first_slice (code : ascii) (data : list Byte.byte) (i : nat) :
  0 < calcsize code ->
  unpack_first code (py_slice data i (i + calcsize code))
  = if i + calcsize code <=? length data
    then inr (unpack_scalar code (py_slice data i (i + calcsize code)))
    else inl StructError.
Proof.
  intros Hw. unfold unpack_first.
  pose proof (struct_unpack_fits code data 1 i) as Hf.
  pose proof (struct_unpack_short code data 1 i) as Hs.
  rewrite Nat.mul_1_r in Hf, Hs.
  destruct (Nat.leb_spec (i + calcsize code) (length data)) as [H | H].
  - rewrite Hf by assumption. cbn. now rewrite Nat.add_0_r.
  - now rewrite Hs.
Qed.

Lemma tuple_from_S code data w n i :
  tuple_from code data w (S n) i
  = unpack_scalar code (py_slice data i (i + w))
    :: tuple_from code data w n (i + w).
Proof.
  unfold tuple_from. simpl seq. simpl map. rewrite Nat.add_0_r. f_equal.
  rewrite <- seq_shift, map_map. apply map_ext. intros j.
  do 2 f_equal; lia.
Qed.

(** One [struct.unpack] of [n] items agrees with [n] unpackings of one item,
    in what it returns and in when it fails. *)
Lemma components_agree (code : ascii) (data : list Byte.byte) (n i : nat) :
  0 < calcsize code ->
  snd (comprehension
         (fun j =>
            read_slice data (i + j * calcsize code)
              (i + j * calcsize code + calcsize code) (unpack_first code))
         (seq 0 n))
  = struct_unpack code n (py_slice data i (i + calcsize code * n)).
Proof.
  intros Hw. revert i. induction n as [| n IH]; intros i.
  - unfold struct_unpack.
    rewrite length_py_slice, Nat.mul_0_r.
    replace (i + 0 - i) with 0 by lia. reflexivity.
  - simpl seq. rewrite comprehension_cons.
    rewrite <- seq_shift, comprehension_map.
    rewrite (comprehension_ext _
      (fun j =>
         read_slice data (i + calcsize code + j * calcsize code)
           (i + calcsize code + j * calcsize code + calcsize code)
           (unpack_first code))).
    2:{ intros j. f_equal; lia. }
    rewrite IH. unfold read_slice at 1. simpl snd.
    rewrite Nat.add_0_r, unpack_first_slice by assumption.
    destruct (le_lt_dec (i + calcsize code * S n) (length data)) as [H | H].
    + rewrite (struct_unpack_fits code data (S n) i) by assumption.
      destruct (Nat.leb_spec (i + calcsize code) (length data)); [| lia].
      rewrite struct_unpack_fits by lia.
      now rewrite tuple_from_S.
    + rewrite (struct_unpack_short code data (S n) i) by (try assumption; lia).
      destruct (Nat.leb_spec (i + calcsize code) (length data)); [| reflexivity].
      rewrite struct_unpack_short by lia. reflexivity.
Qed.

Lemma geomview_iterAttr_unfold (att : QAttribute) :
  GeomView.iterAttr att
  = for_yield
      (fun i =>
         comprehension
           (fun j =>
              read_slice (buffer att)
                (i + j * basetype_widths (vertexBaseType att))
                (i + j * basetype_widths (vertexBaseType att)
                 + basetype_widths (vertexBaseType att))
                (unpack_first (basetype_struct_codes (vertexBaseType att))))
           (seq 0 (eff_size_view att)))
      (map (element_start att) (seq 0 (count att))).
Proof.
  unfold GeomView.iterAttr. fold (eff_stride att). fold (eff_size_view att).
  rewrite py_range_elements by apply eff_stride_pos. reflexivity.
Qed.

(** What [geomview.iterAttr] does with the element at position [i], as one
    [struct.unpack] of [eff_size_view att] items. *)
Lemma geomview_body (att : QAttribute) (i : nat) :
  snd (comprehension
         (fun j =>
            read_slice (buffer att)
              (i + j * basetype_widths (vertexBaseType att))
              (i + j * basetype_widths (vertexBaseType att)
               + basetype_widths (vertexBaseType att))
              (unpack_first (basetype_struct_codes (vertexBaseType att))))
         (seq 0 (eff_size_view att)))
  = struct_unpack (basetype_struct_codes (vertexBaseType att))
      (eff_size_view att)
      (py_slice (buffer att) i
         (i + basetype_widths (vertexBaseType att) * eff_size_view att)).
Proof.
  pose proof (basetype_widths_pos (vertexBaseType att)) as Hw.
  rewrite <- calcsize_struct_code in *.
  now apply components_agree.
Qed.

Lemma for_yield_Forall {A : Type} (P : A -> Prop) (body : nat -> step A)
  starts :
  (forall i d, snd (body i) = inr d -> P d) ->
  Forall P (yielded (for_yield body starts)).
Proof.
  intros H. induction starts as [| i rest IH]; simpl; [constructor |].
  specialize (H i). destruct (body i) as [rd [e | d]]; simpl in *.
  - constructor.
  - constructor; [now apply H | assumption].
Qed.

Lemma length_chunks (w n : nat) (data : list Byte.byte) :
  length (chunks w n data) = n.
Proof.
  revert data. induction n as [| n IH]; intros data; simpl; [reflexivity |].
  now rewrite IH.
Qed.

Lemma struct_unpack_length code n data d :
  struct_unpack code n data = inr d -> length d = n.
Proof.
  unfold struct_unpack.
  destruct (length data =? calcsize code * n); [| discriminate].
  intros H. inversion H. now rewrite length_map, length_chunks.
Qed.

(** C6.  For an attribute whose [vertexSize] is not zero the two decoders
    yield the same tuples and end the same way (both take the width of the
    base type for a zero [byteStride]).  For [vertexSize = 0] every tuple of
    [geom.iterAttr] has one component and every tuple of [geomview.iterAttr]
    has as many components as the base type has bytes; so for a base type
    wider than one byte the two outputs differ as soon as the first element
    lies in the buffer. *)
Theorem iterAttr_two_versions (att : QAttribute) :
  (vertexSize att <> 0 ->
   yielded (Geom.iterAttr att) = yielded (GeomView.iterAttr att)
   /\ raised (Geom.iterAttr att) = raised (GeomView.iterAttr att))
  /\ (vertexSize att = 0 ->
      Forall (fun d => length d = 1) (yielded (Geom.iterAttr att))
      /\ Forall (fun d => length d = basetype_widths (vertexBaseType att))
           (yielded (GeomView.iterAttr att))
      /\ (1 < basetype_widths (vertexBaseType att) ->
          0 < count att -> fits att 0 ->
          yielded (Geom.iterAttr att) <> yielded (GeomView.iterAttr att))).
Proof.
  rewrite geom_iterAttr_unfold, geomview_iterAttr_unfold. split.
  - intros Hvs. apply for_yield_ext. intros i _.
    rewrite geomview_body. unfold read_slice. simpl snd.
    unfold eff_size, eff_size_view.
    destruct (Nat.eqb_spec (vertexSize att) 0); [contradiction | reflexivity].
  - intros Hvs.
    assert (H1 : Forall (fun d : list pyval => length d = 1)
              (yielded (for_yield
                 (fun i =>
                    read_slice (buffer att) i
                      (i + basetype_widths (vertexBaseType att) * eff_size att)
                      (struct_unpack
                         (basetype_struct_codes (vertexBaseType att))
                         (eff_size att)))
                 (map (element_start att) (seq 0 (count att)))))).
    { apply for_yield_Forall. intros i d Hd. unfold read_slice in Hd.
      simpl in Hd. apply struct_unpack_length in Hd.
      unfold eff_size in Hd. now rewrite Hvs in Hd. }
    assert (H2 : Forall
              (fun d : list pyval =>
                 length d = basetype_widths (vertexBaseType att))
              (yielded (for_yield
                 (fun i =>
                    comprehension
                      (fun j =>
                         read_slice (buffer att)
                           (i + j * basetype_widths (vertexBaseType att))
                           (i + j * basetype_widths (vertexBaseType att)
                            + basetype_widths (vertexBaseType att))
                           (unpack_first
                              (basetype_struct_codes (vertexBaseType att))))
                      (seq 0 (eff_size_view att)))
                 (map (element_start att) (seq 0 (count att)))))).
    { apply for_yield_Forall. intros i d Hd.
      apply comprehension_length in Hd. rewrite length_seq in Hd.
      unfold eff_size_view in Hd. now rewrite Hvs in Hd. }
    split; [exact H1 | split; [exact H2 |]].
    intros Hw Hc Hfit Heq. rewrite <- Heq in H2.
    destruct (count att) as [| n]; [lia |].
    simpl seq in *. simpl map in *. simpl for_yield in *.
    unfold read_slice in *.
    rewrite (geom_body_fits att 0 Hfit) in *. simpl in *.
    inversion H1 as [| d ds Hd1 _]; subst.
    inversion H2 as [| d' ds' Hd2 _]; subst.
    rewrite Hd1 in Hd2. lia.
Qed.

(** * buildVertexAttrs and the way back through geom.iterAttr *)

Section Uniform.
Context {A : Type} (w : nat).

Abbreviation uniform := (Forall (fun x : list A => length x = w)).

Lemma length_concat_uniform (xs : list (list A)) :
  uniform xs -> length (concat xs) = length xs * w.
Proof.
  induction 1 as [| x xs Hx _ IH]; simpl; [reflexivity |].
  rewrite length_app. lia.
Qed.

Lemma skipn_concat_uniform (n : nat) (xs : list (list A)) :
  uniform xs -> skipn (n * w) (concat xs) = concat (skipn n xs).
Proof.
  intros H. revert n. induction H as [| x xs Hx _ IH]; intros n.
  - now rewrite !skipn_nil.
  - destruct n as [| n]; [reflexivity |].
    change (concat (x :: xs)) with (x ++ concat xs).
    change (skipn (S n) (x :: xs)) with (skipn n xs).
    rewrite skipn_app, Hx.
    rewrite skipn_all2 by lia.
    replace (S n * w - w) with (n * w) by lia. simpl. apply IH.
Qed.

Lemma firstn_concat_uniform (n : nat) (xs : list (list A)) :
  uniform xs -> firstn (n * w) (concat xs) = concat (firstn n xs).
Proof.
  intros H. revert n. induction H as [| x xs Hx _ IH]; intros n.
  - now rewrite !firstn_nil.
  - destruct n as [| n]; [reflexivity |].
    change (concat (x :: xs)) with (x ++ concat xs).
    change (firstn (S n) (x :: xs)) with (x :: firstn n xs).
    rewrite firstn_app, Hx.
    rewrite firstn_all2 by lia.
    replace (S n * w - w) with (n * w) by lia. simpl. now rewrite IH.
Qed.

Lemma uniform_skipn (n : nat) (xs : list (list A)) :
  uniform xs -> uniform (skipn n xs).
Proof.
  intros H. apply Forall_forall. intros x Hx.
  rewrite Forall_forall in H. apply H.
  rewrite <- (firstn_skipn n xs). apply in_or_app. now right.
Qed.

Lemma uniform_firstn (n : nat) (xs : list (list A)) :
  uniform xs -> uniform (firstn n xs).
Proof.
  intros H. apply Forall_forall. intros x Hx.
  rewrite Forall_forall in H. apply H.
  rewrite <- (firstn_skipn n xs). apply in_or_app. now left.
Qed.
End Uniform.

Lemma chunks_concat_uniform (w : nat) (xs : list (list Byte.byte)) :
  Forall (fun x => length x = w) xs ->
  chunks w (length xs) (concat xs) = xs.
Proof.
  induction 1 as [| x xs Hx _ IH]; [reflexivity |].
  change (concat (x :: xs)) with (x ++ concat xs). simpl length. simpl chunks.
  rewrite firstn_app, skipn_app, Hx, Nat.sub_diag.
  rewrite firstn_all2, skipn_all2 by lia.
  simpl. now rewrite app_nil_r, IH.
Qed.

Lemma skipn_nth_error {A : Type} (l : list A) (k : nat) (a : A) :
  nth_error l k = Some a -> skipn k l = a :: skipn (S k) l.
Proof.
  revert k. induction l as [| b l IH]; intros [| k] H; try discriminate.
  - now inversion H.
  - simpl in H. now apply IH.
Qed.

Lemma map_seq_nth_error {A B : Type} (f : nat -> B) (g : A -> B)
  (l : list A) (s : nat) :
  (forall k a, nth_error l k = Some a -> f (s + k) = g a) ->
  map f (seq s (length l)) = map g l.
Proof.
  revert s. induction l as [| a l IH]; intros s H; [reflexivity |].
  simpl. f_equal.
  - rewrite <- (Nat.add_0_r s). now apply H.
  - apply IH. intros k b Hk.
    replace (S s + k) with (s + S k) by lia. now apply H.
Qed.

(** The reverse dictionary gives back the base type with the code and the
    width of the array's scalar type, for each of the nine types. *)
Lemma basetype_numpy_codes_reverse_spec (ty : np_sctype) :
  exists t,
    Geom.basetype_numpy_codes_reverse ty = inr t
    /\ basetype_struct_codes t = sctype_code ty
    /\ basetype_widths t = itemsize ty.
Proof.
  destruct ty; eexists; (split; [reflexivity | split; reflexivity]).
Qed.

Lemma length_tobytes (array : ndarray) :
  rectangular array ->
  length (tobytes array)
  = length (items array) * (num_columns array * itemsize (dtype array)).
Proof.
  intros [Hrows Hitems]. unfold tobytes.
  rewrite (length_concat_uniform (num_columns array * itemsize (dtype array))).
  - now rewrite length_map.
  - apply Forall_forall. intros bs Hbs.
    apply in_map_iff in Hbs. destruct Hbs as [row [<- Hrow]].
    rewrite Forall_forall in Hrows, Hitems.
    rewrite (length_concat_uniform (itemsize (dtype array)))
      by now apply Hitems.
    now rewrite (Hrows row Hrow).
Qed.

(** The bytes of columns [c .. c+nc-1] of row [k] sit in the packed buffer at
    offset [c * w] of the [k]-th stretch of [columns * w] bytes. *)
Lemma tobytes_row_slice (array : ndarray) (k c nc : nat)
  (row : list (list Byte.byte)) :
  rectangular array ->
  nth_error (items array) k = Some row ->
  c + nc <= num_columns array ->
  py_slice (tobytes array)
    (c * itemsize (dtype array)
     + k * (num_columns array * itemsize (dtype array)))
    (c * itemsize (dtype array)
     + k * (num_columns array * itemsize (dtype array))
     + itemsize (dtype array) * nc)
  = concat (py_slice row c (c + nc)).
Proof.
  intros [Hrows Hitems] Hk Hc.
  set (w := itemsize (dtype array)). set (cols := num_columns array).
  assert (Hrow : length row = cols).
  { rewrite Forall_forall in Hrows. apply Hrows.
    eapply nth_error_In; eassumption. }
  assert (Hw : Forall (fun item => length item = w) row).
  { rewrite Forall_forall in Hitems. apply Hitems.
    eapply nth_error_In; eassumption. }
  assert (Hblocks : Forall (fun bs => length bs = cols * w)
                      (map (@concat Byte.byte) (items array))).
  { apply Forall_forall. intros bs Hbs.
    apply in_map_iff in Hbs. destruct Hbs as [r [<- Hr]].
    rewrite Forall_forall in Hrows, Hitems.
    rewrite (length_concat_uniform w) by now apply Hitems.
    now rewrite (Hrows r Hr). }
  unfold py_slice, tobytes.
  replace (c * w + k * (cols * w) + w * nc - (c * w + k * (cols * w)))
    with (nc * w) by lia.
  replace (c + nc - c) with nc by lia.
  rewrite <- skipn_skipn.
  rewrite (skipn_concat_uniform (cols * w)) by assumption.
  rewrite skipn_map, (skipn_nth_error _ _ _ Hk).
  simpl map. simpl concat.
  rewrite skipn_app.
  rewrite (length_concat_uniform w) by assumption.
  replace (c * w - length row * w) with 0 by nia.
  simpl skipn at 2.
  rewrite (skipn_concat_uniform w) by assumption.
  rewrite firstn_app.
  rewrite (length_concat_uniform w) by now apply uniform_skipn.
  rewrite length_skipn.
  replace (nc * w - (length row - c) * w) with 0 by nia.
  simpl firstn at 2. rewrite app_nil_r.
  apply firstn_concat_uniform. now apply uniform_skipn.
Qed.

(** Decoding one attribute that [buildVertexAttrs] would build. *)
Lemma built_attr_decodes (array : ndarray) (asp : Geom.AttrSpec)
  (t : VertexBaseType) :
  rectangular array ->
  basetype_struct_codes t = sctype_code (dtype array) ->
  basetype_widths t = itemsize (dtype array) ->
  0 < Geom.numcols asp ->
  Geom.column asp + Geom.numcols asp <= num_columns array ->
  let att :=
    mkAttr (Geom.asp_name asp) t (Geom.numcols asp) VertexAttribute
      (tobytes array) (num_columns array * basetype_widths t)
      (Geom.column asp * basetype_widths t) (length (items array)) in
  yielded (Geom.iterAttr att) = columns_of array asp
  /\ raised (Geom.iterAttr att) = None.
Proof.
  intros Hrect Hcode Hwidth Hnc Hrange att.
  pose proof (basetype_widths_pos t) as Hw.
  assert (Hstride : eff_stride att = num_columns array * basetype_widths t).
  { unfold eff_stride. subst att. cbn [byteStride vertexBaseType].
    destruct (Nat.eqb_spec (num_columns array * basetype_widths t) 0);
      [nia | reflexivity]. }
  assert (Hsize : eff_size att = Geom.numcols asp).
  { unfold eff_size. subst att. cbn [vertexSize].
    destruct (Nat.eqb_spec (Geom.numcols asp) 0); [lia | reflexivity]. }
  assert (Hstart : forall k,
            element_start att k
            = Geom.column asp * itemsize (dtype array)
              + k * (num_columns array * itemsize (dtype array))).
  { intros k. unfold element_start. rewrite Hstride.
    subst att. cbn [byteOffset]. now rewrite Hwidth. }
  assert (Hfits : forall k, k < count att -> fits att k).
  { intros k Hk. unfold fits. rewrite Hstart, Hsize.
    subst att. cbn [count vertexBaseType buffer] in *.
    rewrite length_tobytes by assumption. rewrite Hwidth. nia. }
  destruct (geom_iterAttr_complete att Hfits) as [Hy Hr].
  split; [| exact Hr].
  rewrite Hy. unfold columns_of.
  change (count att) with (length (items array)).
  apply map_seq_nth_error. intros k row Hrow. simpl.
  assert (Hk : k < count att).
  { change (count att) with (length (items array)).
    apply nth_error_Some. now rewrite Hrow. }
  pose proof (geom_body_fits att k (Hfits k Hk)) as Hbody.
  rewrite Hstart, Hsize in Hbody.
  change (buffer att) with (tobytes array) in Hbody.
  change (vertexBaseType att) with t in Hbody.
  rewrite Hwidth in Hbody.
  rewrite (tobytes_row_slice array k _ _ row Hrect Hrow Hrange) in Hbody.
  unfold struct_unpack in Hbody. rewrite Hcode in Hbody.
  fold (itemsize (dtype array)) in Hbody.
  assert (Hlen : length (py_slice row (Geom.column asp)
                           (Geom.column asp + Geom.numcols asp))
                 = Geom.numcols asp).
  { apply py_slice_fits. destruct Hrect as [Hrows _].
    rewrite Forall_forall in Hrows.
    rewrite (Hrows row) by (eapply nth_error_In; eassumption). exact Hrange. }
  assert (Huni : Forall (fun item => length item = itemsize (dtype array))
                   (py_slice row (Geom.column asp)
                      (Geom.column asp + Geom.numcols asp))).
  { unfold py_slice. apply uniform_firstn, uniform_skipn.
    destruct Hrect as [_ Hitems]. rewrite Forall_forall in Hitems.
    apply Hitems. eapply nth_error_In; eassumption. }
  rewrite (length_concat_uniform (itemsize (dtype array))) in Hbody
    by assumption.
  rewrite Hlen in Hbody.
  replace (Geom.numcols asp * itemsize (dtype array))
    with (itemsize (dtype array) * Geom.numcols asp) in Hbody by lia.
  rewrite Nat.eqb_refl in Hbody.
  rewrite <- Hlen in Hbody at 1.
  rewrite chunks_concat_uniform in Hbody by assumption.
  inversion Hbody as [Heq]. reflexivity.
Qed.

Lemma covers_once_in_range (columns : nat) (attrspecs : list Geom.AttrSpec)
  (asp : Geom.AttrSpec) :
  covers_once columns attrspecs ->
  In asp attrspecs -> 0 < Geom.numcols asp ->
  Geom.column asp + Geom.numcols asp <= columns.
Proof.
  intros Hcov Hin Hnc.
  assert (H : In (Geom.column asp + (Geom.numcols asp - 1)) (seq 0 columns)).
  { eapply Permutation_in; [exact Hcov |].
    apply in_flat_map. exists asp. split; [assumption |].
    apply in_seq. lia. }
  apply in_seq in H. lia.
Qed.

(** C2.  For a rectangular array and specs whose column ranges (each of at
    least one column) cover the columns exactly once: [buildVertexAttrs]
    succeeds whenever the array has a row; every attribute it builds has the
    array's base type, the stride [columns * width], the offset
    [column * width], and [geom.iterAttr] decodes it, without an exception,
    to exactly the columns of the array that its spec names. *)
Theorem buildVertexAttrs_round_trip (array : ndarray)
  (attrspecs : list Geom.AttrSpec) :
  rectangular array ->
  covers_once (num_columns array) attrspecs ->
  Forall (fun asp => 0 < Geom.numcols asp) attrspecs ->
  (items array <> [] ->
   exists attrs, Geom.buildVertexAttrs array attrspecs = inr attrs)
  /\ forall attrs,
      Geom.buildVertexAttrs array attrspecs = inr attrs ->
      exists basetype,
        Geom.basetype_numpy_codes_reverse (dtype array) = inr basetype
        /\ Forall2
             (fun asp att =>
                vertexBaseType att = basetype
                /\ byteStride att
                   = num_columns array * basetype_widths basetype
                /\ byteOffset att
                   = Geom.column asp * basetype_widths basetype
                /\ yielded (Geom.iterAttr att) = columns_of array asp
                /\ raised (Geom.iterAttr att) = None)
             attrspecs attrs.
Proof.
  intros Hrect Hcov Hpos.
  destruct (basetype_numpy_codes_reverse_spec (dtype array))
    as [t [Hrev [Hcode Hwidth]]].
  unfold Geom.buildVertexAttrs. rewrite Hrev.
  destruct (items array) as [| row0 rows] eqn:Hitems.
  - split; [congruence | discriminate].
  - split; [intros _; eexists; reflexivity |].
    intros attrs Hattrs. inversion Hattrs as [Heq]. clear Hattrs Heq.
    exists t. split; [reflexivity |].
    assert (Hall : forall asp, In asp attrspecs ->
              0 < Geom.numcols asp
              /\ Geom.column asp + Geom.numcols asp <= num_columns array).
    { intros asp Hin. rewrite Forall_forall in Hpos.
      split; [now apply Hpos |].
      apply (covers_once_in_range _ attrspecs); auto. }
    clear Hcov Hpos.
    induction attrspecs as [| asp specs IH]; simpl; constructor.
    + destruct (Hall asp (or_introl eq_refl)) as [Hnc Hrange].
      pose proof (built_attr_decodes array asp t Hrect Hcode Hwidth Hnc Hrange)
        as Hdec.
      cbv zeta in Hdec. rewrite Hitems in Hdec.
      unfold num_columns in *. rewrite Hitems in *.
      cbn [vertexBaseType byteStride byteOffset].
      repeat split; try reflexivity; apply Hdec.
    + apply IH. intros a Ha. apply Hall. now right.
Qed.

Lemma buildVertexAttrs_round_trip_witness :
  (items sample_array <> [] ->
   exists attrs, Geom.buildVertexAttrs sample_array sample_specs = inr attrs)
  /\ forall attrs,
      Geom.buildVertexAttrs sample_array sample_specs = inr attrs ->
      exists basetype,
        Geom.basetype_numpy_codes_reverse (dtype sample_array) = inr basetype
        /\ Forall2
             (fun asp att =>
                vertexBaseType att = basetype
                /\ byteStride att
                   = num_columns sample_array * basetype_widths basetype
                /\ byteOffset att
                   = Geom.column asp * basetype_widths basetype
                /\ yielded (Geom.iterAttr att) = columns_of sample_array asp
                /\ raised (Geom.iterAttr att) = None)
             sample_specs attrs.
Proof.
  apply buildVertexAttrs_round_trip.
  - split; repeat constructor.
  - apply Permutation_refl.
  - repeat constructor.
Defined.

(** * The two groupers *)

Lemma zl_pass_exhausted {A : Type} (slots : list slot) (na : nat) :
  1 <= na -> na <= live slots -> zl_pass slots (@nil A) na = None.
Proof.
  revert na. induction slots as [| s rest IH]; intros na H1 H2.
  - simpl in H2. lia.
  - destruct s; simpl in *.
    + destruct (na - 1) as [| m] eqn:E; [reflexivity |].
      rewrite IH by lia. reflexivity.
    + rewrite IH by lia. reflexivity.
Qed.

Lemma zl_pass_inv {A : Type} (slots : list slot) (it : list A) (na : nat)
  sl vals it' na' :
  zl_pass slots it na = Some (sl, vals, it', na') ->
  length it' <= length it
  /\ (1 <= na -> 1 <= na')
  /\ na' + live slots = na + live sl
  /\ length vals = length slots
  /\ length sl = length slots.
Proof.
  revert it na sl vals it' na'.
  induction slots as [| s rest IH]; intros it na sl vals it' na' H.
  - simpl in H. inversion H; subst. simpl. lia.
  - destruct s; simpl in H.
    + destruct it as [| a it1].
      * destruct (na - 1) as [| m] eqn:E; [discriminate |].
        destruct (zl_pass rest [] (S m)) as [[[[sl1 vals1] it1'] na1] |] eqn:P;
          [| discriminate].
        inversion H; subst. apply IH in P. simpl in *. lia.
      * destruct (zl_pass rest it1 na) as [[[[sl1 vals1] it1'] na1] |] eqn:P;
          [| discriminate].
        inversion H; subst. apply IH in P. simpl in *. lia.
    + destruct (zl_pass rest it na) as [[[[sl1 vals1] it1'] na1] |] eqn:P;
        [| discriminate].
      inversion H; subst. apply IH in P. simpl in *. lia.
Qed.

Lemma zl_pass_progress {A : Type} (slots : list slot) (it : list A) (na : nat)
  sl vals it' na' :
  zl_pass slots it na = Some (sl, vals, it', na') ->
  it <> [] -> 1 <= live slots -> length it' < length it.
Proof.
  revert it na sl vals it' na'.
  induction slots as [| s rest IH]; intros it na sl vals it' na' H Hit Hl.
  - simpl in Hl. lia.
  - destruct s; simpl in H, Hl.
    + destruct it as [| a it1]; [congruence |].
      destruct (zl_pass rest it1 na) as [[[[sl1 vals1] it1'] na1] |] eqn:P;
        [| discriminate].
      inversion H; subst. apply zl_pass_inv in P. simpl in *. lia.
    + destruct (zl_pass rest it na) as [[[[sl1 vals1] it1'] na1] |] eqn:P;
        [| discriminate].
      inversion H; subst. eapply IH; eassumption.
Qed.

(** With more passes allowed than the iterator has elements, [zip_longest]
    reaches its [return]. *)
Lemma zl_loop_total {A : Type} (fuel : nat) (slots : list slot) (it : list A)
  (na : nat) :
  length it < fuel -> 1 <= na -> na <= live slots ->
  exists groups,
    zl_loop fuel slots it na = Some groups
    /\ Forall (fun g => length g = length slots) groups.
Proof.
  revert slots it na.
  induction fuel as [| fuel IH]; intros slots it na Hf H1 H2; [lia |].
  simpl.
  destruct (zl_pass slots it na) as [[[[sl vals] it'] na'] |] eqn:P.
  - destruct it as [| a it1].
    + rewrite zl_pass_exhausted in P by assumption. discriminate.
    + pose proof (zl_pass_inv _ _ _ _ _ _ _ P) as [_ [Hna [Hlive [Hlen Hsl]]]].
      assert (Hlt : length it' < length (a :: it1)).
      { eapply zl_pass_progress; [eassumption | discriminate | lia]. }
      simpl in Hlt, Hf.
      destruct (IH sl it' na') as [groups [Hg Hall]]; [lia | auto | lia |].
      rewrite Hg. eexists. split; [reflexivity |].
      constructor; [assumption | now rewrite <- Hsl].
  - eexists. split; [reflexivity | constructor].
Qed.

Lemma live_repeat (n : nat) : live (repeat Live n) = n.
Proof. induction n as [| n IH]; simpl; [reflexivity | now rewrite IH]. Qed.

(** [geom.grouper] always returns, and every group it yields has exactly [n]
    entries. *)
Lemma geom_grouper_total {A : Type} (i : list A) (n : nat) :
  exists groups,
    Geom.grouper i n = Some groups
    /\ Forall (fun g => length g = n) groups.
Proof.
  unfold Geom.grouper, zip_longest_shared.
  destruct n as [| n]; [eexists; split; [reflexivity | constructor] |].
  destruct (zl_loop_total (S (length i)) (repeat Live (S n)) i (S n))
    as [groups [Hg Hall]].
  - lia.
  - lia.
  - rewrite live_repeat. lia.
  - exists groups. split; [assumption |].
    now rewrite repeat_length in Hall.
Qed.

Lemma islice_until_empty_total {A : Type} (fuel n : nat) (it : list A) :
  length it < fuel ->
  exists groups,
    islice_until_empty fuel n it = Some groups
    /\ Forall (fun g => g <> [] /\ length g <= n) groups
    /\ (0 < n -> concat groups = it).
Proof.
  revert it. induction fuel as [| fuel IH]; intros it Hf; [lia |].
  simpl. destruct (firstn n it) as [| a chunk] eqn:E.
  - eexists. split; [reflexivity |]. split; [constructor |].
    intros Hn. destruct it as [| b it]; [reflexivity |].
    destruct n; [lia | discriminate].
  - assert (Hlen : length (skipn n it) < fuel).
    { rewrite length_skipn.
      destruct it as [| b it]; [now rewrite firstn_nil in E |].
      destruct n; [discriminate |]. simpl in *. lia. }
    assert (Hc : length (a :: chunk) <= n).
    { rewrite <- E. apply firstn_le_length. }
    assert (Hcut : (a :: chunk) ++ skipn n it = it).
    { rewrite <- E. apply firstn_skipn. }
    destruct (IH _ Hlen) as [groups [Hg [Hall Hcat]]].
    rewrite Hg. eexists. split; [reflexivity |]. split.
    + constructor; [| assumption].
      split; [discriminate | exact Hc].
    + intros Hn. change (concat ((a :: chunk) :: groups))
        with ((a :: chunk) ++ concat groups).
      now rewrite Hcat.
Qed.

(** [geomview.grouper] always returns; its groups are never empty, have at
    most [n] items and, put end to end, are the input: nothing is added. *)
Lemma geomview_grouper_total {A : Type} (i : list A) (n : nat) :
  exists groups,
    GeomView.grouper i n = Some groups
    /\ Forall (fun g => g <> [] /\ length g <= n) groups
    /\ (0 < n -> concat groups = i).
Proof.
  unfold GeomView.grouper. apply islice_until_empty_total. lia.
Qed.

(** C9.  On the five items 1, 2, 3, 4, 5 and group size 2, [geom.grouper]
    yields (1, 2), (3, 4), (5, fill): the last group is padded with the
    missing-value fill (here [None]); [geomview.grouper] yields [1, 2],
    [3, 4], [5]: a short last group and no padding. *)
Theorem grouper_pads_or_truncates :
  Geom.grouper [1; 2; 3; 4; 5]%Z 2
  = Some [[Some 1; Some 2]; [Some 3; Some 4]; [Some 5; None]]%Z
  /\ GeomView.grouper [1; 2; 3; 4; 5]%Z 2
     = Some [[1; 2]; [3; 4]; [5]]%Z.
Proof. split; reflexivity. Qed.

(** * Bounding boxes *)

Section MinMax.
Local Open Scope Q_scope.

Lemma py_min_le_l (a b : Q) : py_min a b <= a.
Proof.
  unfold py_min. destruct (b ?= a) eqn:E; try apply Qle_refl.
  apply Qlt_le_weak. now apply Qlt_alt.
Qed.

Lemma py_min_le_r (a b : Q) : py_min a b <= b.
Proof.
  unfold py_min. destruct (b ?= a) eqn:E.
  - apply Qeq_alt in E. rewrite E. apply Qle_refl.
  - apply Qle_refl.
  - apply Qgt_alt in E. now apply Qlt_le_weak.
Qed.

Lemma py_min_cases (a b : Q) : py_min a b = a \/ py_min a b = b.
Proof. unfold py_min. destruct (b ?= a); auto. Qed.

Lemma py_max_ge_l (a b : Q) : a <= py_max a b.
Proof.
  unfold py_max. destruct (b ?= a) eqn:E; try apply Qle_refl.
  apply Qlt_le_weak. now apply Qgt_alt.
Qed.

Lemma py_max_ge_r (a b : Q) : b <= py_max a b.
Proof.
  unfold py_max. destruct (b ?= a) eqn:E.
  - apply Qeq_alt in E. rewrite E. apply Qle_refl.
  - apply Qlt_alt in E. now apply Qlt_le_weak.
  - apply Qle_refl.
Qed.

Lemma py_max_cases (a b : Q) : py_max a b = a \/ py_max a b = b.
Proof. unfold py_max. destruct (b ?= a); auto. Qed.

(** Folding [min] from [a] over [xs] gives an element of [a :: xs] below
    all of them. *)
Lemma fold_py_min_spec (xs : list Q) (a : Q) :
  In (fold_left py_min xs a) (a :: xs)
  /\ forall b, In b (a :: xs) -> fold_left py_min xs a <= b.
Proof.
  revert a. induction xs as [| c xs IH]; intros a; simpl.
  - split; [now left |]. intros b [<- | []]. apply Qle_refl.
  - destruct (IH (py_min a c)) as [Hin Hle]. split.
    + destruct Hin as [Hin | Hin]; [| now right; right].
      rewrite <- Hin. destruct (py_min_cases a c) as [-> | ->]; auto.
    + intros b [<- | [<- | Hb]].
      * eapply Qle_trans; [apply Hle; now left | apply py_min_le_l].
      * eapply Qle_trans; [apply Hle; now left | apply py_min_le_r].
      * apply Hle. now right.
Qed.

Lemma fold_py_max_spec (xs : list Q) (a : Q) :
  In (fold_left py_max xs a) (a :: xs)
  /\ forall b, In b (a :: xs) -> b <= fold_left py_max xs a.
Proof.
  revert a. induction xs as [| c xs IH]; intros a; simpl.
  - split; [now left |]. intros b [<- | []]. apply Qle_refl.
  - destruct (IH (py_max a c)) as [Hin Hle]. split.
    + destruct Hin as [Hin | Hin]; [| now right; right].
      rewrite <- Hin. destruct (py_max_cases a c) as [-> | ->]; auto.
    + intros b [<- | [<- | Hb]].
      * eapply Qle_trans; [apply py_max_ge_l | apply Hle; now left].
      * eapply Qle_trans; [apply py_max_ge_r | apply Hle; now left].
      * apply Hle. now right.
Qed.

Lemma fold_py_min_is_min (xs : list Q) (a : Q) :
  is_min (fold_left py_min xs a) (a :: xs).
Proof.
  destruct (fold_py_min_spec xs a) as [Hin Hle]. split; [| exact Hle].
  exists (fold_left py_min xs a). split; [exact Hin | reflexivity].
Qed.

Lemma fold_py_max_is_max (xs : list Q) (a : Q) :
  is_max (fold_left py_max xs a) (a :: xs).
Proof.
  destruct (fold_py_max_spec xs a) as [Hin Hle]. split; [| exact Hle].
  exists (fold_left py_max xs a). split; [exact Hin | reflexivity].
Qed.

(** The least element of a list is determined, up to numeric equality, by
    the elements that occur in it. *)
Lemma is_min_unique (m m' : Q) (xs ys : list Q) :
  (forall a, In a xs -> In a ys) -> (forall a, In a ys -> In a xs) ->
  is_min m xs -> is_min m' ys -> m == m'.
Proof.
  intros Hxy Hyx [[a [Ha Hea]] Hm] [[b [Hb Heb]] Hm'].
  apply Qle_antisym.
  - rewrite <- Heb. apply Hm. now apply Hyx.
  - rewrite <- Hea. apply Hm'. now apply Hxy.
Qed.

Lemma is_max_unique (m m' : Q) (xs ys : list Q) :
  (forall a, In a xs -> In a ys) -> (forall a, In a ys -> In a xs) ->
  is_max m xs -> is_max m' ys -> m == m'.
Proof.
  intros Hxy Hyx [[a [Ha Hea]] Hm] [[b [Hb Heb]] Hm'].
  apply Qle_antisym.
  - rewrite <- Hea. apply Hm'. now apply Hxy.
  - rewrite <- Heb. apply Hm. now apply Hyx.
Qed.

(** The loop over the vertices is three folds of [min] and three of [max],
    one per coordinate. *)
Lemma fold_vertex_coordinates (vs : list vertex) (mn mx : vec3d) :
  fold_left fold_vertex vs (mn, mx)
  = (mkVec3d (fold_left py_min (map v_0 vs) (x mn))
             (fold_left py_min (map v_1 vs) (y mn))
             (fold_left py_min (map v_2 vs) (z mn)),
     mkVec3d (fold_left py_max (map v_0 vs) (x mx))
             (fold_left py_max (map v_1 vs) (y mx))
             (fold_left py_max (map v_2 vs) (z mx))).
Proof.
  revert mn mx. induction vs as [| v vs IH]; intros mn mx.
  - destruct mn, mx. reflexivity.
  - simpl. rewrite IH. reflexivity.
Qed.

(** [AABB.__init__] on a non-empty iterator, coordinate by coordinate. *)
Lemma AABB_init_cons (v0 : vertex) (rest : list vertex) :
  Geom.AABB_init (v0 :: rest)
  = inr (box_of
           (mkVec3d (fold_left py_min (map v_0 rest) (v_0 v0))
                    (fold_left py_min (map v_1 rest) (v_1 v0))
                    (fold_left py_min (map v_2 rest) (v_2 v0)))
           (mkVec3d (fold_left py_max (map v_0 rest) (v_0 v0))
                    (fold_left py_max (map v_1 rest) (v_1 v0))
                    (fold_left py_max (map v_2 rest) (v_2 v0)))).
Proof.
  unfold Geom.AABB_init. rewrite fold_vertex_coordinates. reflexivity.
Qed.

(** The six extremes of the box that [AABB.__init__] builds. *)
Lemma AABB_init_extremes (it : list vertex) (box : Geom.AABB) :
  Geom.AABB_init it = inr box ->
  is_min (x (Geom.min box)) (map v_0 it)
  /\ is_min (y (Geom.min box)) (map v_1 it)
  /\ is_min (z (Geom.min box)) (map v_2 it)
  /\ is_max (x (Geom.max box)) (map v_0 it)
  /\ is_max (y (Geom.max box)) (map v_1 it)
  /\ is_max (z (Geom.max box)) (map v_2 it)
  /\ Geom.center box
     = vec3d_div (vec3d_add (Geom.min box) (Geom.max box)) 2.
Proof.
  destruct it as [| v0 rest]; [discriminate |].
  rewrite AABB_init_cons. intros H. inversion H; subst. clear H.
  simpl. repeat split;
    try apply fold_py_min_spec; try apply fold_py_max_spec;
    try (eexists; split; [apply fold_py_min_spec | reflexivity]);
    try (eexists; split; [apply fold_py_max_spec | reflexivity]).
Qed.
End MinMax.

Section Boxes.
Local Open Scope Q_scope.

Lemma vec3d_center_eq (mn mx mn' mx' : vec3d) :
  vec3d_eq mn mn' -> vec3d_eq mx mx' ->
  vec3d_eq (vec3d_div (vec3d_add mn mx) 2) (vec3d_div (vec3d_add mn' mx') 2).
Proof.
  intros [H1 [H2 H3]] [H4 [H5 H6]]. unfold vec3d_eq. simpl.
  rewrite H1, H2, H3, H4, H5, H6. repeat split; reflexivity.
Qed.

Lemma map_In_permutation (f : vertex -> Q) (it it' : list vertex) (a : Q) :
  Permutation it it' -> In a (map f it) -> In a (map f it').
Proof.
  intros Hp. apply Permutation_in. now apply Permutation_map.
Qed.

(** Two vertex sequences that are permutations of each other give
    numerically equal boxes. *)
Lemma AABB_init_permutation (it it' : list vertex) (box box' : Geom.AABB) :
  Permutation it it' ->
  Geom.AABB_init it = inr box -> Geom.AABB_init it' = inr box' ->
  box_eq box box'.
Proof.
  intros Hp Hb Hb'.
  destruct (AABB_init_extremes it box Hb)
    as [H1 [H2 [H3 [H4 [H5 [H6 Hc]]]]]].
  destruct (AABB_init_extremes it' box' Hb')
    as [H1' [H2' [H3' [H4' [H5' [H6' Hc']]]]]].
  pose proof (Permutation_sym Hp) as Hp'.
  assert (Hmin : vec3d_eq (Geom.min box) (Geom.min box')).
  { repeat split;
      (eapply is_min_unique; [| | eassumption | eassumption];
       intros a; apply map_In_permutation; assumption). }
  assert (Hmax : vec3d_eq (Geom.max box) (Geom.max box')).
  { repeat split;
      (eapply is_max_unique; [| | eassumption | eassumption];
       intros a; apply map_In_permutation; assumption). }
  split; [exact Hmin | split; [exact Hmax |]].
  rewrite Hc, Hc'. now apply vec3d_center_eq.
Qed.

(** [AABB.__init__] alone, over exact coordinates.  On a non-empty vertex
    sequence it succeeds; it starts
    both corners at the first vertex and folds the others in, coordinate by
    coordinate; each coordinate of [min] is the least, and each coordinate
    of [max] the greatest, of that coordinate over all the vertices; and
    every permutation of the sequence gives the same box. *)
Theorem AABB_init_min_max_any_order (v0 : vertex) (rest : list vertex) :
  exists box,
    Geom.AABB_init (v0 :: rest) = inr box
    /\ (Geom.min box, Geom.max box)
       = fold_left fold_vertex rest
           (mkVec3d (v_0 v0) (v_1 v0) (v_2 v0),
            mkVec3d (v_0 v0) (v_1 v0) (v_2 v0))
    /\ is_min (x (Geom.min box)) (map v_0 (v0 :: rest))
    /\ is_min (y (Geom.min box)) (map v_1 (v0 :: rest))
    /\ is_min (z (Geom.min box)) (map v_2 (v0 :: rest))
    /\ is_max (x (Geom.max box)) (map v_0 (v0 :: rest))
    /\ is_max (y (Geom.max box)) (map v_1 (v0 :: rest))
    /\ is_max (z (Geom.max box)) (map v_2 (v0 :: rest))
    /\ forall it',
        Permutation (v0 :: rest) it' ->
        exists box', Geom.AABB_init it' = inr box' /\ box_eq box box'.
Proof.
  destruct (Geom.AABB_init (v0 :: rest)) as [e | box] eqn:Hbox;
    [rewrite AABB_init_cons in Hbox; discriminate |].
  exists box. split; [reflexivity |].
  destruct (AABB_init_extremes _ _ Hbox) as [H1 [H2 [H3 [H4 [H5 [H6 _]]]]]].
  split.
  { rewrite AABB_init_cons in Hbox. inversion Hbox; subst. simpl.
    now rewrite fold_vertex_coordinates. }
  repeat (split; [assumption |]).
  intros it' Hp.
  destruct it' as [| v0' rest'].
  { apply Permutation_sym, Permutation_nil in Hp. discriminate. }
  destruct (Geom.AABB_init (v0' :: rest')) as [e | box'] eqn:Hbox';
    [rewrite AABB_init_cons in Hbox'; discriminate |].
  exists box'. split; [reflexivity |].
  eapply AABB_init_permutation; eassumption.
Qed.

(** C7, on the code.  The older [compute_AABB] does not take the first
    vertex as its initial minimum and maximum: it starts both from the
    origin.  On the single vertex (1, 2, 3) it returns the minimum (0, 0, 0)
    and the maximum (1, 2, 3); no coordinate of that minimum is the least
    value of the coordinate over the vertices, and the box is not the one
    [AABB.__init__] builds from the same vertex, whose two corners are
    (1, 2, 3). *)
Theorem compute_AABB_not_seeded_by_first_vertex :
  GeomView.compute_AABB [(1, 2, 3)] = (mkVec3d 0 0 0, mkVec3d 1 2 3)
  /\ Geom.AABB_init [(1, 2, 3)]
     = inr (box_of (mkVec3d 1 2 3) (mkVec3d 1 2 3))
  /\ ~ is_min (x (fst (GeomView.compute_AABB [(1, 2, 3)])))
        (map v_0 [(1, 2, 3)])
  /\ ~ is_min (y (fst (GeomView.compute_AABB [(1, 2, 3)])))
        (map v_1 [(1, 2, 3)])
  /\ ~ is_min (z (fst (GeomView.compute_AABB [(1, 2, 3)])))
        (map v_2 [(1, 2, 3)])
  /\ ~ vec3d_eq (fst (GeomView.compute_AABB [(1, 2, 3)])) (mkVec3d 1 2 3).
Proof.
  split; [reflexivity |]. split; [reflexivity |].
  repeat split.
  - intros [[a [[<- | []] Ha]] _]. discriminate Ha.
  - intros [[a [[<- | []] Ha]] _]. discriminate Ha.
  - intros [[a [[<- | []] Ha]] _]. discriminate Ha.
  - intros [Hx _]. discriminate Hx.
Qed.

Lemma fold_py_min_permutation (xs ys : list Q) (a : Q) :
  Permutation xs ys -> fold_left py_min xs a == fold_left py_min ys a.
Proof.
  intros Hp.
  apply (is_min_unique _ _ (a :: xs) (a :: ys));
    try apply fold_py_min_is_min.
  - intros b. apply Permutation_in. now constructor.
  - intros b. apply Permutation_in. constructor. now apply Permutation_sym.
Qed.

Lemma fold_py_max_permutation (xs ys : list Q) (a : Q) :
  Permutation xs ys -> fold_left py_max xs a == fold_left py_max ys a.
Proof.
  intros Hp.
  apply (is_max_unique _ _ (a :: xs) (a :: ys));
    try apply fold_py_max_is_max.
  - intros b. apply Permutation_in. now constructor.
  - intros b. apply Permutation_in. constructor. now apply Permutation_sym.
Qed.

(** The same holds of the older [compute_AABB]: the order of the vertices
    does not matter to it either. *)
Lemma compute_AABB_permutation (it it' : list vertex) :
  Permutation it it' ->
  vec3d_eq (fst (GeomView.compute_AABB it)) (fst (GeomView.compute_AABB it'))
  /\ vec3d_eq (snd (GeomView.compute_AABB it))
       (snd (GeomView.compute_AABB it')).
Proof.
  intros Hp. unfold GeomView.compute_AABB.
  rewrite !fold_vertex_coordinates. cbn [fst snd]. unfold vec3d_eq.
  cbn [x y z].
  repeat split;
    (apply fold_py_min_permutation || apply fold_py_max_permutation);
    now apply Permutation_map.
Qed.

(** C3, on the code.  On the empty vertex sequence [AABB.__init__] fails:
    [next(it)] raises [StopIteration] and no box is built.  The older
    [compute_AABB] does not fail: it returns the box whose two corners are
    the origin. *)
Theorem bounding_box_of_no_vertices :
  Geom.AABB_init [] = inl StopIteration
  /\ GeomView.compute_AABB [] = (vec3d_zero, vec3d_zero).
Proof. split; reflexivity. Qed.
End Boxes.

Section Corners.
Local Open Scope Q_scope.

Lemma is_min_le_is_max (m M : Q) (xs : list Q) :
  is_min m xs -> is_max M xs -> m <= M.
Proof.
  intros [[a [Ha Hea]] _] [_ HM]. rewrite <- Hea. now apply HM.
Qed.

Lemma is_min_of_two (a b : Q) (l : list Q) :
  a <= b -> In a l -> (forall c, In c l -> c = a \/ c = b) -> is_min a l.
Proof.
  intros Hab Hin Hall. split.
  - exists a. split; [assumption | reflexivity].
  - intros c Hc. destruct (Hall c Hc) as [-> | ->];
      [apply Qle_refl | assumption].
Qed.

Lemma is_max_of_two (a b : Q) (l : list Q) :
  a <= b -> In b l -> (forall c, In c l -> c = a \/ c = b) -> is_max b l.
Proof.
  intros Hab Hin Hall. split.
  - exists b. split; [assumption | reflexivity].
  - intros c Hc. destruct (Hall c Hc) as [-> | ->];
      [assumption | apply Qle_refl].
Qed.

Lemma fold_py_min_of_two (a b : Q) (xs : list Q) :
  a <= b -> (forall c, In c xs -> c = a \/ c = b) ->
  fold_left py_min xs a == a.
Proof.
  intros Hab Hall.
  apply (is_min_unique _ _ (a :: xs) (a :: xs)); auto.
  - apply fold_py_min_is_min.
  - apply (is_min_of_two a b); [assumption | now left |].
    intros c [<- | Hc]; [now left | now apply Hall].
Qed.

Lemma fold_py_max_of_two (a b : Q) (xs : list Q) :
  a <= b -> In b xs -> (forall c, In c xs -> c = a \/ c = b) ->
  fold_left py_max xs a == b.
Proof.
  intros Hab Hin Hall.
  apply (is_max_unique _ _ (a :: xs) (a :: xs)); auto.
  - apply fold_py_max_is_max.
  - apply (is_max_of_two a b); [assumption | now right |].
    intros c [<- | Hc]; [now left | now apply Hall].
Qed.

(** C8.  [iterCorners] yields the eight corners, [x] varying slowest and
    [z] fastest, each coordinate taking its [min] before its [max]; and the
    box that [AABB.__init__] builds from the corners of a box it built is
    that box again. *)
Theorem iterCorners_eight_and_back (box : Geom.AABB) :
  (forall (P : Type) (cons : Q -> Q -> Q -> P),
      Geom.iterCorners box cons
      = [ cons (x (Geom.min box)) (y (Geom.min box)) (z (Geom.min box));
          cons (x (Geom.min box)) (y (Geom.min box)) (z (Geom.max box));
          cons (x (Geom.min box)) (y (Geom.max box)) (z (Geom.min box));
          cons (x (Geom.min box)) (y (Geom.max box)) (z (Geom.max box));
          cons (x (Geom.max box)) (y (Geom.min box)) (z (Geom.min box));
          cons (x (Geom.max box)) (y (Geom.min box)) (z (Geom.max box));
          cons (x (Geom.max box)) (y (Geom.max box)) (z (Geom.min box));
          cons (x (Geom.max box)) (y (Geom.max box)) (z (Geom.max box)) ])
  /\ forall it,
      Geom.AABB_init it = inr box ->
      exists box',
        Geom.AABB_init (Geom.iterCorners box (fun a b c => (a, b, c)))
        = inr box'
        /\ box_eq box' box.
Proof.
  split; [reflexivity |].
  intros it Hbox.
  destruct (AABB_init_extremes it box Hbox)
    as [H1 [H2 [H3 [H4 [H5 [H6 Hc]]]]]].
  pose proof (is_min_le_is_max _ _ _ H1 H4) as Hx.
  pose proof (is_min_le_is_max _ _ _ H2 H5) as Hy.
  pose proof (is_min_le_is_max _ _ _ H3 H6) as Hz.
  clear H1 H2 H3 H4 H5 H6 Hbox it.
  destruct box as [[ax ay az] [bx by' bz] c].
  cbn [Geom.min Geom.max Geom.center x y z] in Hx, Hy, Hz, Hc. subst c.
  change (Geom.iterCorners _ (fun a b c : Q => (a, b, c)))
    with [ (ax, ay, az); (ax, ay, bz); (ax, by', az); (ax, by', bz);
           (bx, ay, az); (bx, ay, bz); (bx, by', az); (bx, by', bz) ].
  eexists. split; [rewrite AABB_init_cons; reflexivity |].
  cbn [map v_0 v_1 v_2 fst snd].
  assert (Hmin : vec3d_eq
            (mkVec3d (fold_left py_min [ax; ax; ax; bx; bx; bx; bx] ax)
                     (fold_left py_min [ay; by'; by'; ay; ay; by'; by'] ay)
                     (fold_left py_min [bz; az; bz; az; bz; az; bz] az))
            (mkVec3d ax ay az)).
  { repeat split; cbn [x y z];
      (eapply fold_py_min_of_two; [eassumption |]; simpl; intuition). }
  assert (Hmax : vec3d_eq
            (mkVec3d (fold_left py_max [ax; ax; ax; bx; bx; bx; bx] ax)
                     (fold_left py_max [ay; by'; by'; ay; ay; by'; by'] ay)
                     (fold_left py_max [bz; az; bz; az; bz; az; bz] az))
            (mkVec3d bx by' bz)).
  { repeat split; cbn [x y z];
      (eapply fold_py_max_of_two; [eassumption | simpl; tauto |];
       simpl; intuition). }
  split; [exact Hmin | split; [exact Hmax |]].
  cbn [box_of Geom.center]. now apply vec3d_center_eq.
Qed.

Lemma iterCorners_eight_and_back_witness :
  exists box',
    Geom.AABB_init (Geom.iterCorners sample_box (fun a b c => (a, b, c)))
    = inr box'
    /\ box_eq box' sample_box.
Proof.
  apply (proj2 (iterCorners_eight_and_back sample_box) sample_vertices).
  reflexivity.
Defined.

(** C10.  Whatever the vertices, also when there are none, the box of
    [compute_AABB] has no minimum above zero and no maximum below zero: both
    corners start at the origin.  So for vertices strictly inside the
    positive octant no coordinate of its [minimums] is the least of that
    coordinate over the vertices, and for vertices strictly inside the
    negative octant no coordinate of its [maximums] is the greatest: the
    box holds the origin and is not the smallest box around the
    vertices. *)
Theorem compute_AABB_holds_the_origin (vertices : list vertex) :
  (x (fst (GeomView.compute_AABB vertices)) <= 0
   /\ y (fst (GeomView.compute_AABB vertices)) <= 0
   /\ z (fst (GeomView.compute_AABB vertices)) <= 0
   /\ 0 <= x (snd (GeomView.compute_AABB vertices))
   /\ 0 <= y (snd (GeomView.compute_AABB vertices))
   /\ 0 <= z (snd (GeomView.compute_AABB vertices)))
  /\ (Forall positive_octant vertices ->
      ~ is_min (x (fst (GeomView.compute_AABB vertices))) (map v_0 vertices)
      /\ ~ is_min (y (fst (GeomView.compute_AABB vertices)))
           (map v_1 vertices)
      /\ ~ is_min (z (fst (GeomView.compute_AABB vertices)))
           (map v_2 vertices))
  /\ (Forall negative_octant vertices ->
      ~ is_max (x (snd (GeomView.compute_AABB vertices))) (map v_0 vertices)
      /\ ~ is_max (y (snd (GeomView.compute_AABB vertices)))
           (map v_1 vertices)
      /\ ~ is_max (z (snd (GeomView.compute_AABB vertices)))
           (map v_2 vertices)).
Proof.
  unfold GeomView.compute_AABB. rewrite fold_vertex_coordinates.
  cbn [fst snd x y z vec3d_zero].
  assert (Hlow : forall xs, fold_left py_min xs 0 <= 0).
  { intros xs. apply fold_py_min_spec. now left. }
  assert (Hhigh : forall xs, 0 <= fold_left py_max xs 0).
  { intros xs. apply fold_py_max_spec. now left. }
  split; [repeat split; auto |]. split.
  - intros Hpos. rewrite Forall_forall in Hpos.
    repeat split; intros [[a [Ha Hea]] _];
      apply in_map_iff in Ha; destruct Ha as [v [<- Hv]];
      destruct (Hpos v Hv) as [P0 [P1 P2]];
      match goal with
      | H : _ == fold_left py_min ?xs 0 |- _ =>
          pose proof (Hlow xs) as Hl; rewrite <- H in Hl
      end;
      apply (Qle_not_lt _ _ Hl); assumption.
  - intros Hneg. rewrite Forall_forall in Hneg.
    repeat split; intros [[a [Ha Hea]] _];
      apply in_map_iff in Ha; destruct Ha as [v [<- Hv]];
      destruct (Hneg v Hv) as [P0 [P1 P2]];
      match goal with
      | H : _ == fold_left py_max ?xs 0 |- _ =>
          pose proof (Hhigh xs) as Hl; rewrite <- H in Hl
      end;
      apply (Qle_not_lt _ _ Hl); assumption.
Qed.

Lemma compute_AABB_holds_the_origin_witness :
  ~ is_min (x (fst (GeomView.compute_AABB sample_vertices)))
      (map v_0 sample_vertices)
  /\ ~ is_min (y (fst (GeomView.compute_AABB sample_vertices)))
       (map v_1 sample_vertices)
  /\ ~ is_min (z (fst (GeomView.compute_AABB sample_vertices)))
       (map v_2 sample_vertices).
Proof.
  apply (proj1 (proj2 (compute_AABB_holds_the_origin sample_vertices))).
  repeat constructor.
Defined.
End Corners.

(** * Least squares and transformBetween *)

Section LeastSquares.
Local Open Scope Q_scope.

Lemma square_nonneg (a : Q) : 0 <= a * a.
Proof. nra. Qed.

Lemma square_zero (a : Q) : a * a == 0 -> a == 0.
Proof.
  intros H. destruct (Qmult_integral _ _ H); assumption.
Qed.

Lemma row4_sqdist_nonneg (r s : row4) : 0 <= row4_sqdist r s.
Proof.
  destruct r as [[[a b] c] d], s as [[[a' b'] c'] d']. simpl.
  pose proof (square_nonneg (a - a')). pose proof (square_nonneg (b - b')).
  pose proof (square_nonneg (c - c')). pose proof (square_nonneg (d - d')).
  lra.
Qed.

Lemma row4_sqdist_zero (r s : row4) :
  row4_sqdist r s == 0 <-> row4_eq r s.
Proof.
  destruct r as [[[a b] c] d], s as [[[a' b'] c'] d']. simpl. split.
  - intros H.
    pose proof (square_nonneg (a - a')) as Ha.
    pose proof (square_nonneg (b - b')) as Hb.
    pose proof (square_nonneg (c - c')) as Hc.
    pose proof (square_nonneg (d - d')) as Hd.
    assert (Ha0 : (a - a') * (a - a') == 0) by lra.
    assert (Hb0 : (b - b') * (b - b') == 0) by lra.
    assert (Hc0 : (c - c') * (c - c') == 0) by lra.
    assert (Hd0 : (d - d') * (d - d') == 0) by lra.
    apply square_zero in Ha0, Hb0, Hc0, Hd0. repeat split; lra.
  - intros [Ha [Hb [Hc Hd]]]. rewrite Ha, Hb, Hc, Hd. ring.
Qed.

Lemma residual_nonneg (X Y : list row4) (A : mat4) : 0 <= residual X Y A.
Proof.
  revert Y. induction X as [| r X IH]; intros [| s Y]; simpl;
    try apply Qle_refl.
  pose proof (row4_sqdist_nonneg (row4_dot r A) s). specialize (IH Y). lra.
Qed.

(** The residual vanishes exactly when every row is hit. *)
Lemma residual_zero (X Y : list row4) (A : mat4) :
  length X = length Y ->
  (residual X Y A == 0
   <-> Forall2 (fun r s => row4_eq (row4_dot r A) s) X Y).
Proof.
  revert Y. induction X as [| r X IH]; intros [| s Y] Hlen;
    try discriminate; simpl.
  - split; [constructor | reflexivity].
  - injection Hlen as Hlen. specialize (IH Y Hlen).
    pose proof (row4_sqdist_nonneg (row4_dot r A) s) as H1.
    pose proof (residual_nonneg X Y A) as H2.
    split.
    + intros H. constructor.
      * apply row4_sqdist_zero. lra.
      * apply IH. lra.
    + intros H. inversion H; subst.
      match goal with
      | H1 : row4_eq _ _, H2 : Forall2 _ _ _ |- _ =>
          apply row4_sqdist_zero in H1; apply IH in H2; rewrite H1, H2
      end.
      ring.
Qed.

(** When some array hits every row, every least-squares solution does. *)
Lemma least_squares_exact (X Y : list row4) (A A0 : mat4) :
  length X = length Y ->
  least_squares X Y A ->
  Forall2 (fun r s => row4_eq (row4_dot r A0) s) X Y ->
  Forall2 (fun r s => row4_eq (row4_dot r A) s) X Y.
Proof.
  intros Hlen Hls H0.
  apply residual_zero; [assumption |].
  apply (residual_zero X Y A0 Hlen) in H0.
  pose proof (Hls A0) as Hle. pose proof (residual_nonneg X Y A) as Hge.
  lra.
Qed.

Lemma unpad_np_dot_pad (A : mat4) (cf ct : list vertex) :
  Forall2 (fun r s => row4_eq (row4_dot r A) s) (Geom.pad cf) (Geom.pad ct) ->
  Forall2 vertex_eq (Geom.unpad (np_dot (Geom.pad cf) A)) ct.
Proof.
  revert ct. induction cf as [| p cf IH]; intros [| q ct] H;
    inversion H; subst; cbn [Geom.unpad np_dot Geom.pad map]; constructor.
  - match goal with H1 : row4_eq _ _ |- _ => revert H1 end.
    destruct (row4_dot (v_0 p, v_1 p, v_2 p, 1) A) as [[[a b] c] d].
    destruct q as [[q0 q1] q2]. unfold row4_eq, vertex_eq. simpl. tauto.
  - now apply IH.
Qed.
End LeastSquares.

Section TransformBetween.
Local Open Scope Q_scope.

Lemma all_zero_corners (b : Geom.AABB) :
  Geom.all_zero (Geom.column2 (Geom.np_coords_from_aabb b))
  = Qeq_bool (z (Geom.min b)) 0 && Qeq_bool (z (Geom.max b)) 0.
Proof.
  unfold Geom.all_zero, Geom.column2, Geom.np_coords_from_aabb,
    Geom.iterCorners.
  cbn [flat_map map app forallb v_2 snd].
  destruct (Qeq_bool (z (Geom.min b)) 0), (Qeq_bool (z (Geom.max b)) 0);
    reflexivity.
Qed.

(** For a box of positive extent the arrays go to the solver as they are. *)
Lemma fit_coords_proper (aabb1 aabb2 : Geom.AABB) :
  proper aabb1 ->
  Geom.fit_coords aabb1 aabb2
  = inr (Geom.np_coords_from_aabb aabb1, Geom.np_coords_from_aabb aabb2).
Proof.
  intros [_ [_ Hz]]. unfold Geom.fit_coords.
  rewrite !all_zero_corners.
  destruct (Qeq_bool (z (Geom.min aabb1)) 0) eqn:E1;
    destruct (Qeq_bool (z (Geom.max aabb1)) 0) eqn:E2;
    rewrite ?andb_false_r; try reflexivity.
  apply Qeq_bool_eq in E1, E2. rewrite E1, E2 in Hz.
  exfalso. revert Hz. apply Qlt_irrefl.
Qed.

(** For two boxes flat in Z, the Z column of the arrays is replaced. *)
Lemma fit_coords_flat (aabb1 aabb2 : Geom.AABB) :
  flat aabb1 -> flat aabb2 ->
  ~ x (Geom.max aabb1) - x (Geom.min aabb1) == 0 ->
  ~ y (Geom.max aabb1) - y (Geom.min aabb1) == 0 ->
  Geom.fit_coords aabb1 aabb2
  = inr (corners_with_z (-1) 1 aabb1,
         corners_with_z (- average_ratio aabb1 aabb2)
           (average_ratio aabb1 aabb2) aabb2).
Proof.
  intros [F1 F2] [T1 T2] Hdx Hdy. unfold Geom.fit_coords.
  rewrite !all_zero_corners.
  apply Qeq_bool_iff in F1, F2, T1, T2. rewrite F1, F2, T1, T2.
  cbn [andb]. unfold Geom.py_div, Geom.dimensions, vec3d_sub.
  cbn [fst snd x y z].
  destruct (Qeq_bool (x (Geom.max aabb1) - x (Geom.min aabb1)) 0) eqn:Ex.
  { apply Qeq_bool_eq in Ex. contradiction. }
  destruct (Qeq_bool (y (Geom.max aabb1) - y (Geom.min aabb1)) 0) eqn:Ey.
  { apply Qeq_bool_eq in Ey. contradiction. }
  reflexivity.
Qed.

(** A flat box without extent in X makes the ratio's division raise. *)
Lemma fit_coords_flat_no_extent (aabb1 aabb2 : Geom.AABB) :
  flat aabb1 -> flat aabb2 ->
  x (Geom.max aabb1) - x (Geom.min aabb1) == 0 ->
  Geom.fit_coords aabb1 aabb2 = inl ZeroDivisionError.
Proof.
  intros [F1 F2] [T1 T2] Hdx. unfold Geom.fit_coords.
  rewrite !all_zero_corners.
  apply Qeq_bool_iff in F1, F2, T1, T2. rewrite F1, F2, T1, T2.
  cbn [andb]. unfold Geom.py_div, Geom.dimensions, vec3d_sub.
  cbn [fst snd x y z].
  apply Qeq_bool_iff in Hdx. now rewrite Hdx.
Qed.

(** The per-axis scaling and shift hits every corner of the target. *)
Lemma fit_matrix_exact (aabb1 aabb2 : Geom.AABB) :
  proper aabb1 ->
  Forall2 (fun r s => row4_eq (row4_dot r (fit_matrix aabb1 aabb2)) s)
    (Geom.pad (Geom.np_coords_from_aabb aabb1))
    (Geom.pad (Geom.np_coords_from_aabb aabb2)).
Proof.
  destruct aabb1 as [[ax ay az] [bx by' bz] c1].
  destruct aabb2 as [[ax' ay' az'] [bx' by'' bz'] c2].
  unfold proper. cbn [Geom.min Geom.max x y z]. intros [Hx [Hy Hz]].
  assert (Nx : ~ bx - ax == 0) by lra.
  assert (Ny : ~ by' - ay == 0) by lra.
  assert (Nz : ~ bz - az == 0) by lra.
  unfold Geom.np_coords_from_aabb, Geom.iterCorners, fit_matrix.
  cbn [Geom.min Geom.max x y z flat_map map app Geom.pad v_0 v_1 v_2
       fst snd].
  repeat constructor;
    cbn [row4_dot row4_add row4_scale r0 r1 r2 r3 row4_eq];
    repeat split; field; assumption.
Qed.

(** In exact arithmetic only.  For a box [aabb1] of positive extent on the
    three axes (and any [aabb2], so also one of positive extent), whatever
    exact least-squares solution a solver returns for the two corner arrays
    (the double-precision solve of numpy, with its cut-off of small singular
    values, is not such a solver on every input), the returned
    transform maps the eight corners of [aabb1], in the order of
    [iterCorners], to the eight corners of [aabb2] in the same order. *)
Theorem transformBetween_maps_corners
  (lstsq : list row4 -> list row4 -> mat4) (aabb1 aabb2 : Geom.AABB) :
  proper aabb1 ->
  (forall cf ct,
      Geom.fit_coords aabb1 aabb2 = inr (cf, ct) ->
      least_squares (Geom.pad cf) (Geom.pad ct)
        (lstsq (Geom.pad cf) (Geom.pad ct))) ->
  exists transform,
    Geom.transformBetween lstsq aabb1 aabb2 = inr transform
    /\ Forall2 vertex_eq
         (transform (Geom.np_coords_from_aabb aabb1))
         (Geom.np_coords_from_aabb aabb2).
Proof.
  intros Hproper Hls.
  pose proof (fit_coords_proper aabb1 aabb2 Hproper) as Hfit.
  specialize (Hls _ _ Hfit).
  unfold Geom.transformBetween. rewrite Hfit.
  eexists. split; [reflexivity |].
  apply unpad_np_dot_pad.
  apply least_squares_exact with (A0 := fit_matrix aabb1 aabb2).
  - reflexivity.
  - exact Hls.
  - now apply fit_matrix_exact.
Qed.
End TransformBetween.

Section TransformExamples.
Local Open Scope Q_scope.

Lemma unit_cube_proper : proper unit_cube.
Proof. repeat split. Qed.

(** A solution without residual is a least-squares solution. *)
Lemma least_squares_of_exact (X Y : list row4) (A : mat4) :
  residual X Y A <= 0 -> least_squares X Y A.
Proof.
  intros H B. eapply Qle_trans; [exact H | apply residual_nonneg].
Qed.

Lemma transformBetween_maps_corners_witness :
  exists transform,
    Geom.transformBetween lstsq_cube unit_cube box_2x3x4 = inr transform
    /\ Forall2 vertex_eq
         (transform (Geom.np_coords_from_aabb unit_cube))
         (Geom.np_coords_from_aabb box_2x3x4).
Proof.
  apply transformBetween_maps_corners.
  - exact unit_cube_proper.
  - intros cf ct H.
    rewrite (fit_coords_proper _ _ unit_cube_proper) in H.
    inversion H; subst.
    apply least_squares_of_exact. vm_compute. discriminate.
Defined.

Lemma flat_from_flat : flat flat_from.
Proof. split; reflexivity. Qed.

Lemma flat_to_flat : flat flat_to.
Proof. split; reflexivity. Qed.

Lemma flat_samples_coords :
  Geom.fit_coords flat_from flat_to
  = inr (corners_with_z (-1) 1 flat_from,
         corners_with_z (- average_ratio flat_from flat_to)
           (average_ratio flat_from flat_to) flat_to).
Proof.
  apply fit_coords_flat.
  - exact flat_from_flat.
  - exact flat_to_flat.
  - discriminate.
  - discriminate.
Qed.

(** C4.  When both boxes are flat in Z (and [aabb1] has extent in X and in
    Y, so that the two ratios exist), the arrays handed to the solver are
    the corners with Z replaced: -1 and +1 for the lower and upper corners
    of [aabb1], minus and plus the average of the X and Y scale ratios for
    those of [aabb2].  For the boxes (0,0,0)-(2,4,0) and (0,0,0)-(4,8,0),
    whatever least-squares solution the solver returns, the transform maps
    (1,1,1) to (2,2,2). *)
Theorem transformBetween_flat_correction :
  (forall aabb1 aabb2 : Geom.AABB,
      flat aabb1 -> flat aabb2 ->
      ~ x (Geom.max aabb1) - x (Geom.min aabb1) == 0 ->
      ~ y (Geom.max aabb1) - y (Geom.min aabb1) == 0 ->
      Geom.fit_coords aabb1 aabb2
      = inr (corners_with_z (-1) 1 aabb1,
             corners_with_z (- average_ratio aabb1 aabb2)
               (average_ratio aabb1 aabb2) aabb2))
  /\ average_ratio flat_from flat_to == 2
  /\ forall lstsq : list row4 -> list row4 -> mat4,
      (forall cf ct,
          Geom.fit_coords flat_from flat_to = inr (cf, ct) ->
          least_squares (Geom.pad cf) (Geom.pad ct)
            (lstsq (Geom.pad cf) (Geom.pad ct))) ->
      exists transform,
        Geom.transformBetween lstsq flat_from flat_to = inr transform
        /\ Forall2 vertex_eq (transform [(1, 1, 1)]) [(2, 2, 2)].
Proof.
  split; [exact fit_coords_flat |]. split; [reflexivity |].
  intros lstsq Hls.
  specialize (Hls _ _ flat_samples_coords).
  unfold Geom.transformBetween. rewrite flat_samples_coords.
  eexists. split; [reflexivity |].
  assert (Hr : average_ratio flat_from flat_to == 2) by reflexivity.
  revert Hls Hr. generalize (average_ratio flat_from flat_to). intros r.
  generalize (lstsq (Geom.pad (corners_with_z (-1) 1 flat_from))
                (Geom.pad (corners_with_z (- r) r flat_to))).
  intros A Hls Hr.
  assert (Hex : Forall2 (fun p q => row4_eq (row4_dot p A) q)
                  (Geom.pad (corners_with_z (-1) 1 flat_from))
                  (Geom.pad (corners_with_z (- r) r flat_to))).
  { apply least_squares_exact with (A0 := scaling 2 2 2);
      [reflexivity | exact Hls |].
    cbn [corners_with_z flat_from flat_to box_of Geom.min Geom.max x y z
         Geom.pad map v_0 v_1 v_2 fst snd scaling].
    repeat constructor;
      cbn [row4_dot row4_add row4_scale r0 r1 r2 r3 row4_eq];
      repeat split; lra. }
  clear Hls.
  destruct A as [[[[a00 a01] a02] a03] [[[a10 a11] a12] a13]
                 [[[a20 a21] a22] a23] [[[a30 a31] a32] a33]].
  cbn [corners_with_z flat_from flat_to box_of Geom.min Geom.max x y z
       Geom.pad map v_0 v_1 v_2 fst snd] in Hex.
  repeat match goal with
         | H : Forall2 _ (_ :: _) (_ :: _) |- _ =>
             inversion H; subst; clear H
         | H : Forall2 _ [] [] |- _ => clear H
         end.
  cbn [row4_dot row4_add row4_scale r0 r1 r2 r3 row4_eq] in *.
  cbn [Geom.unpad np_dot Geom.pad map v_0 v_1 v_2 fst snd
       row4_dot row4_add row4_scale r0 r1 r2 r3].
  constructor; [| constructor].
  unfold vertex_eq. cbn [v_0 v_1 v_2 fst snd].
  repeat match goal with H : _ /\ _ |- _ => destruct H end.
  repeat split; lra.
Qed.

Lemma transformBetween_flat_correction_witness :
  exists transform,
    Geom.transformBetween lstsq_flat flat_from flat_to = inr transform
    /\ Forall2 vertex_eq (transform [(1, 1, 1)]) [(2, 2, 2)].
Proof.
  apply (proj2 (proj2 transformBetween_flat_correction)).
  intros cf ct H. rewrite flat_samples_coords in H.
  inversion H; subst.
  apply least_squares_of_exact. vm_compute. discriminate.
Defined.
End TransformExamples.

(** Two attributes on which the decoders can be compared by running them:
    with two components per element they agree; on a 16-bit index attribute
    with [vertexSize = 0] they do not. *)
Lemma iterAttr_two_versions_witness :
  yielded (Geom.iterAttr att_index16)
  <> yielded (GeomView.iterAttr att_index16).
Proof.
  apply (proj2 (proj2 (proj2 (iterAttr_two_versions att_index16) eq_refl))).
  - cbn. lia.
  - cbn. lia.
  - unfold fits. cbn. lia.
Defined.

Example iterAttr_pairs_agree :
  Geom.iterAttr att_pairs = GeomView.iterAttr att_pairs
  /\ yielded (Geom.iterAttr att_pairs)
     = [[PyInt 1; PyInt 2]; [PyInt (-1); PyInt 4]].
Proof. split; reflexivity. Qed.

Example iterAttr_index16_differ :
  yielded (Geom.iterAttr att_index16) = [[PyInt 1]; [PyInt 2]; [PyInt 3]]
  /\ yielded (GeomView.iterAttr att_index16)
     = [[PyInt 1; PyInt 2]; [PyInt 2; PyInt 3]]
  /\ raised (GeomView.iterAttr att_index16) = Some StructError.
Proof. repeat split; reflexivity. Qed.

(** The sample vertices in two orders give the same box. *)
Example AABB_init_sample_orders :
  Geom.AABB_init sample_vertices = inr sample_box
  /\ Geom.AABB_init sample_vertices_permuted = inr sample_box.
Proof. split; reflexivity. Qed.

(** The round trip on the sample array, run: the position columns and the
    weight column come back as the numbers 1, 2 / 4, 5 and 3 / 6. *)
Example buildVertexAttrs_sample :
  match Geom.buildVertexAttrs sample_array sample_specs with
  | inr [position; weight] =>
      yielded (Geom.iterAttr position)
      = [ [PyFloat (S754_finite false 8388608 (-23));
           PyFloat (S754_finite false 8388608 (-22))];
          [PyFloat (S754_finite false 8388608 (-21));
           PyFloat (S754_finite false 10485760 (-21))] ]
      /\ yielded (Geom.iterAttr weight)
         = [ [PyFloat (S754_finite false 12582912 (-22))];
             [PyFloat (S754_finite false 12582912 (-21))] ]
      /\ byteStride position = 12 /\ byteOffset weight = 8
  | _ => False
  end.
Proof. repeat split; reflexivity. Qed.

(** * More on the two groupers *)

Lemma zl_pass_live_full {A : Type} (k : nat) (it : list A) (na : nat) :
  k <= length it ->
  zl_pass (repeat Live k) it na
  = Some (repeat Live k, map Some (firstn k it), skipn k it, na).
Proof.
  revert it. induction k as [| k IH]; intros it Hk; [reflexivity |].
  destruct it as [| a it]; [simpl in Hk; lia |].
  simpl in Hk. simpl. rewrite IH by lia. reflexivity.
Qed.

Lemma zl_pass_live_empty {A : Type} (k na : nat) :
  k < na ->
  zl_pass (repeat Live k) (@nil A) na
  = Some (repeat Filler k, repeat None k, [], na - k).
Proof.
  revert na. induction k as [| k IH]; intros na Hk.
  - simpl. now rewrite Nat.sub_0_r.
  - simpl. destruct (na - 1) as [| m] eqn:E; [lia |].
    rewrite IH by lia. do 2 f_equal. lia.
Qed.

Lemma zl_pass_live_short {A : Type} (it : list A) (k na : nat) :
  length it < k -> k - length it < na ->
  zl_pass (repeat Live k) it na
  = Some (repeat Live (length it) ++ repeat Filler (k - length it),
          map Some it ++ repeat None (k - length it), [],
          na - (k - length it)).
Proof.
  revert k. induction it as [| a it IH]; intros k Hk Hna.
  - simpl length in *. rewrite Nat.sub_0_r in *. now apply zl_pass_live_empty.
  - destruct k as [| k]; [simpl in Hk; lia |].
    simpl in Hk, Hna. simpl. rewrite IH by lia. reflexivity.
Qed.

Lemma live_app (s1 s2 : list slot) : live (s1 ++ s2) = live s1 + live s2.
Proof.
  induction s1 as [| [|] s1 IH]; simpl; [reflexivity | now rewrite IH | exact IH].
Qed.

Lemma live_repeat_Filler (n : nat) : live (repeat Filler n) = 0.
Proof. induction n as [| n IH]; simpl; [reflexivity | exact IH]. Qed.

(** Pass by pass, [zip_longest] over [n] aliases of an iterator yields the
    groups of the [islice] loop, each filled up to [n] entries. *)
Lemma zl_loop_islice {A : Type} (fuel n : nat) (it : list A) :
  0 < n -> length it < fuel ->
  zl_loop fuel (repeat Live n) it n
  = option_map (map (pad_group n)) (islice_until_empty fuel n it).
Proof.
  intros Hn. revert it. induction fuel as [| fuel IH]; intros it Hf; [lia |].
  destruct it as [| a it1].
  - simpl. rewrite zl_pass_exhausted by (rewrite ?live_repeat; lia).
    now rewrite firstn_nil.
  - destruct (le_lt_dec n (length (a :: it1))) as [Hfull | Hshort].
    + cbn [zl_loop islice_until_empty].
      rewrite zl_pass_live_full by assumption.
      destruct (firstn n (a :: it1)) as [| b chunk] eqn:E.
      { destruct n; [lia | discriminate]. }
      rewrite IH.
      2:{ rewrite length_skipn. cbn [length] in *. lia. }
      destruct (islice_until_empty fuel n (skipn n (a :: it1))) as [groups |];
        [| reflexivity].
      cbn [option_map map]. do 2 f_equal. unfold pad_group.
      assert (Hlen : length (b :: chunk) = n).
      { rewrite <- E. apply firstn_length_le. assumption. }
      rewrite Hlen, Nat.sub_diag. simpl repeat. now rewrite app_nil_r.
    + cbn [zl_loop islice_until_empty].
      rewrite zl_pass_live_short by (cbn [length] in *; lia).
      rewrite firstn_all2 by lia.
      rewrite skipn_all2 by lia.
      destruct fuel as [| fuel]; [simpl in Hf; lia |].
      cbn [zl_loop islice_until_empty].
      rewrite zl_pass_exhausted.
      2:{ simpl. lia. }
      2:{ rewrite live_app, live_repeat, live_repeat_Filler. simpl. lia. }
      rewrite firstn_nil. reflexivity.
Qed.

Lemma islice_until_empty_full {A : Type} (fuel n : nat) (it : list A)
  (groups : list (list A)) :
  islice_until_empty fuel n it = Some groups ->
  Forall (fun g => length g = n) (removelast groups).
Proof.
  revert it groups. induction fuel as [| fuel IH]; intros it groups H;
    [discriminate |].
  simpl in H. destruct (firstn n it) as [| a chunk] eqn:E.
  - inversion H; subst. constructor.
  - destruct (islice_until_empty fuel n (skipn n it)) as [rest |] eqn:R;
      [| discriminate].
    inversion H; subst. clear H.
    destruct rest as [| g rest]; [constructor |].
    change (removelast ((a :: chunk) :: g :: rest))
      with ((a :: chunk) :: removelast (g :: rest)).
    constructor; [| eapply IH; eassumption].
    destruct (le_lt_dec n (length it)) as [Hle | Hlt].
    + rewrite <- E. now apply firstn_length_le.
    + rewrite skipn_all2 in R by lia.
      destruct fuel; [discriminate |]. simpl in R.
      rewrite firstn_nil in R. discriminate.
Qed.

(** X1.  The two groupers differ only by the padding.  For a group size [n > 0]
    and any iterator, [geomview.grouper] cuts the items into consecutive
    groups, all of [n] items except possibly the last, which has between 1
    and [n]; [geom.grouper] yields the same groups, the last one filled up to
    [n] entries with the fill value.  For [n = 0] both yield nothing. *)
Theorem groupers_differ_by_padding {A : Type} (i : list A) (n : nat) :
  (n = 0 -> Geom.grouper i n = Some [] /\ GeomView.grouper i n = Some [])
  /\ (0 < n ->
      exists groups,
        GeomView.grouper i n = Some groups
        /\ Geom.grouper i n = Some (map (pad_group n) groups)
        /\ concat groups = i
        /\ Forall (fun g => g <> [] /\ length g <= n) groups
        /\ Forall (fun g => length g = n) (removelast groups)).
Proof.
  split.
  - intros ->. split; reflexivity.
  - intros Hn.
    destruct (geomview_grouper_total i n) as [groups [Hg [Hall Hcat]]].
    exists groups. split; [exact Hg |].
    split.
    + unfold Geom.grouper, zip_longest_shared.
      destruct n as [| m]; [lia |].
      rewrite zl_loop_islice by lia.
      unfold GeomView.grouper in Hg. rewrite Hg. reflexivity.
    + split; [now apply Hcat |]. split; [exact Hall |].
      unfold GeomView.grouper in Hg.
      eapply islice_until_empty_full; eassumption.
Qed.

Lemma groupers_differ_by_padding_witness :
  exists groups,
    GeomView.grouper [1; 2; 3; 4; 5; 6; 7]%Z 3 = Some groups
    /\ Geom.grouper [1; 2; 3; 4; 5; 6; 7]%Z 3
       = Some (map (pad_group 3) groups)
    /\ concat groups = [1; 2; 3; 4; 5; 6; 7]%Z
    /\ Forall (fun g => g <> [] /\ length g <= 3) groups
    /\ Forall (fun g => length g = 3) (removelast groups).
Proof.
  apply (proj2 (groupers_differ_by_padding [1; 2; 3; 4; 5; 6; 7]%Z 3)).
  lia.
Defined.

(** * More on the two decoders *)

Lemma for_yield_outcome {A : Type} (body : nat -> step A) (starts : list nat) :
  (raised (for_yield body starts) = None
   <-> forall i, In i starts -> exists d, snd (body i) = inr d)
  /\ (forall e, raised (for_yield body starts) = Some e ->
                exists i, In i starts /\ snd (body i) = inl e)
  /\ length (yielded (for_yield body starts)) <= length starts
  /\ (raised (for_yield body starts) = None ->
      length (yielded (for_yield body starts)) = length starts)
  /\ (raised (for_yield body starts) <> None ->
      length (yielded (for_yield body starts)) < length starts).
Proof.
  induction starts as [| i rest IH].
  - simpl. repeat split; try discriminate; try lia; try congruence;
      try (intros j []).
  - destruct IH as [[IH1 IH1'] [IH2 [IH3 [IH4 IH5]]]].
    simpl. destruct (body i) as [rd [e | d]] eqn:Hb; simpl.
    + repeat split; try discriminate; try lia.
      * intros H. destruct (H i (or_introl eq_refl)) as [d Hd].
        rewrite Hb in Hd. discriminate.
      * intros e' He'. inversion He'; subst. exists i.
        split; [now left | now rewrite Hb].
    + repeat split.
      * intros Hr j [<- | Hj]; [exists d; now rewrite Hb | now apply IH1].
      * intros H. apply IH1'. intros j Hj. apply H. now right.
      * intros e' He'. destruct (IH2 e' He') as [j [Hj Hje]].
        exists j. split; [now right | assumption].
      * lia.
      * intros Hr. now rewrite IH4.
      * intros Hr. specialize (IH5 Hr). lia.
Qed.

Lemma fits_dec (att : QAttribute) (k : nat) : {fits att k} + {~ fits att k}.
Proof.
  unfold fits.
  destruct (le_lt_dec
              (element_start att k
               + basetype_widths (vertexBaseType att) * eff_size att)
              (length (buffer att))); [left | right]; lia.
Qed.

(** X3.  [geom.iterAttr] ends without an exception exactly when every element lies
    inside the buffer; the only exception it can end with is [struct.error]
    (the stride given to [range] is never zero, so no [ValueError]); it never
    yields more than [count] tuples, and yields [count] of them exactly when
    it ends without an exception. *)
Theorem geom_iterAttr_outcome (att : QAttribute) :
  (raised (Geom.iterAttr att) = None
   <-> forall k, k < count att -> fits att k)
  /\ (forall e, raised (Geom.iterAttr att) = Some e -> e = StructError)
  /\ length (yielded (Geom.iterAttr att)) <= count att
  /\ (raised (Geom.iterAttr att) = None ->
      length (yielded (Geom.iterAttr att)) = count att)
  /\ (raised (Geom.iterAttr att) <> None ->
      length (yielded (Geom.iterAttr att)) < count att).
Proof.
  rewrite geom_iterAttr_unfold.
  match goal with
  | |- context [for_yield ?b ?s] =>
      destruct (for_yield_outcome b s) as [[H1 H1'] [H2 [H3 [H4 H5]]]]
  end.
  rewrite length_map, length_seq in *.
  repeat split; try assumption.
  - intros Hr k Hk.
    destruct (fits_dec att k) as [Hf | Hf]; [assumption |].
    destruct (H1 Hr (element_start att k)) as [d Hd].
    { apply in_map. apply in_seq. lia. }
    unfold read_slice in Hd. simpl in Hd.
    rewrite (geom_body_short att k Hf) in Hd. discriminate.
  - intros Hall. apply H1'. intros i Hi.
    apply in_map_iff in Hi. destruct Hi as [k [<- Hk]]. apply in_seq in Hk.
    exists (tuple_at att k). unfold read_slice. simpl.
    apply geom_body_fits. apply Hall. lia.
  - intros e He. destruct (H2 e He) as [i [Hi Hie]].
    apply in_map_iff in Hi. destruct Hi as [k [<- Hk]].
    unfold read_slice in Hie. simpl in Hie.
    destruct (fits_dec att k) as [Hf | Hf].
    + rewrite (geom_body_fits att k Hf) in Hie. discriminate.
    + rewrite (geom_body_short att k Hf) in Hie. now inversion Hie.
Qed.

Lemma geom_iterAttr_outcome_witness :
  length (yielded (Geom.iterAttr att_pairs)) = count att_pairs.
Proof.
  apply (proj1 (proj2 (proj2 (proj2 (geom_iterAttr_outcome att_pairs))))).
  reflexivity.
Defined.

Lemma comprehension_reads {A : Type} (P : nat -> Prop) (f : nat -> step A)
  (js : list nat) :
  (forall j, Forall P (fst (f j))) -> Forall P (fst (comprehension f js)).
Proof.
  intros H. induction js as [| j js IH]; simpl; [constructor |].
  specialize (H j). destruct (f j) as [rd [e | v]]; simpl in *; [assumption |].
  destruct (comprehension f js) as [rd' [e | vs]]; simpl in *;
    apply Forall_app; split; assumption.
Qed.

Lemma eff_size_view_pos (att : QAttribute) : 0 < eff_size_view att.
Proof.
  unfold eff_size_view. destruct (vertexSize att =? 0) eqn:E.
  - apply basetype_widths_pos.
  - apply Nat.eqb_neq in E. lia.
Qed.

Lemma geomview_body_fits (att : QAttribute) (k : nat) :
  fits_view att k ->
  struct_unpack (basetype_struct_codes (vertexBaseType att))
    (eff_size_view att)
    (py_slice (buffer att) (element_start att k)
       (element_start att k
        + basetype_widths (vertexBaseType att) * eff_size_view att))
  = inr (tuple_view_at att k).
Proof.
  unfold fits_view, tuple_view_at. intros H.
  rewrite <- calcsize_struct_code in *. now apply struct_unpack_fits.
Qed.

Lemma geomview_body_short (att : QAttribute) (k : nat) :
  ~ fits_view att k ->
  struct_unpack (basetype_struct_codes (vertexBaseType att))
    (eff_size_view att)
    (py_slice (buffer att) (element_start att k)
       (element_start att k
        + basetype_widths (vertexBaseType att) * eff_size_view att))
  = inl StructError.
Proof.
  unfold fits_view. intros H.
  pose proof (basetype_widths_pos (vertexBaseType att)) as Hw.
  pose proof (eff_size_view_pos att) as Hs.
  rewrite <- calcsize_struct_code in *.
  apply struct_unpack_short; [apply Nat.mul_pos_pos; assumption | lia].
Qed.

(** X4.  [geomview.iterAttr] has the bounds behaviour of [geom.iterAttr], for its
    own number of components: it never copies a byte from outside the
    buffer; at the first element that does not lie inside the buffer it stops
    with [struct.error], after yielding the tuples of the elements before it;
    when every element lies inside it yields all [count] tuples. *)
Theorem geomview_iterAttr_bounds (att : QAttribute) :
  Forall (fun p => p < length (buffer att)) (reads (GeomView.iterAttr att))
  /\ (forall k,
        k < count att -> ~ fits_view att k ->
        (forall k', k' < k -> fits_view att k') ->
        yielded (GeomView.iterAttr att) = map (tuple_view_at att) (seq 0 k)
        /\ raised (GeomView.iterAttr att) = Some StructError)
  /\ ((forall k, k < count att -> fits_view att k) ->
      yielded (GeomView.iterAttr att)
      = map (tuple_view_at att) (seq 0 (count att))
      /\ raised (GeomView.iterAttr att) = None).
Proof.
  rewrite geomview_iterAttr_unfold. split; [| split].
  - apply for_yield_reads. intros i. apply comprehension_reads.
    intros j. apply slice_reads_in_bounds.
  - intros k Hk Hbad Hgood.
    replace (count att) with (k + S (count att - S k)) by lia.
    rewrite seq_app, map_app. simpl seq. simpl map.
    rewrite <- (map_map (element_start att) (fun i =>
      tuple_from (basetype_struct_codes (vertexBaseType att)) (buffer att)
        (basetype_widths (vertexBaseType att)) (eff_size_view att) i)).
    apply for_yield_stops.
    + intros i Hi. apply in_map_iff in Hi. destruct Hi as [k' [<- Hk']].
      apply in_seq in Hk'. rewrite geomview_body.
      apply geomview_body_fits. apply Hgood. lia.
    + rewrite geomview_body. now apply geomview_body_short.
  - intros Hall.
    rewrite <- (map_map (element_start att) (fun i =>
      tuple_from (basetype_struct_codes (vertexBaseType att)) (buffer att)
        (basetype_widths (vertexBaseType att)) (eff_size_view att) i)).
    apply for_yield_all.
    intros i Hi. apply in_map_iff in Hi. destruct Hi as [k' [<- Hk']].
    apply in_seq in Hk'. rewrite geomview_body.
    apply geomview_body_fits. apply Hall. lia.
Qed.

Lemma geomview_iterAttr_bounds_witness :
  yielded (GeomView.iterAttr att_index16)
  = map (tuple_view_at att_index16) (seq 0 2)
  /\ raised (GeomView.iterAttr att_index16) = Some StructError.
Proof.
  apply (proj1 (proj2 (geomview_iterAttr_bounds att_index16)) 2).
  - cbn. lia.
  - unfold fits_view. cbn. lia.
  - intros k' Hk'. unfold fits_view, element_start. cbn.
    destruct k' as [| [| k']]; cbn; lia.
Defined.

(** * buildIndexAttr *)

Lemma concat_map_concat {A : Type} (l : list (list (list A))) :
  concat (map (@concat A) l) = concat (concat l).
Proof.
  induction l as [| r l IH]; [reflexivity |].
  simpl. now rewrite concat_app, IH.
Qed.

Lemma py_slice_concat_item {A : Type} (w k : nat) (F : list (list A))
  (item : list A) :
  Forall (fun it => length it = w) F ->
  nth_error F k = Some item ->
  py_slice (concat F) (k * w) (k * w + w) = item.
Proof.
  intros Hu Hk. unfold py_slice.
  replace (k * w + w - k * w) with w by lia.
  rewrite (skipn_concat_uniform w) by assumption.
  rewrite (skipn_nth_error _ _ _ Hk). simpl concat.
  assert (Hlen : length item = w).
  { rewrite Forall_forall in Hu. apply Hu. eapply nth_error_In; eassumption. }
  rewrite firstn_app, Hlen, Nat.sub_diag. simpl firstn at 2.
  rewrite app_nil_r. apply firstn_all2. lia.
Qed.

(** The decoders agree, in what they yield and in how they end, on every
    attribute with a vertex size other than zero. *)
Lemma iterAttr_agree_nonzero (att : QAttribute) :
  vertexSize att <> 0 ->
  yielded (GeomView.iterAttr att) = yielded (Geom.iterAttr att)
  /\ raised (GeomView.iterAttr att) = raised (Geom.iterAttr att).
Proof.
  intros Hvs. rewrite geom_iterAttr_unfold, geomview_iterAttr_unfold.
  apply for_yield_ext. intros i _.
  rewrite geomview_body. unfold read_slice. simpl snd.
  unfold eff_size, eff_size_view.
  destruct (Nat.eqb_spec (vertexSize att) 0); [contradiction | reflexivity].
Qed.

Lemma items_flat_uniform (array : ndarray) :
  Forall (Forall (fun item => length item = itemsize (dtype array)))
    (items array) ->
  Forall (fun item => length item = itemsize (dtype array))
    (concat (items array)).
Proof.
  intros H. apply Forall_forall. intros item Hin.
  apply in_concat in Hin. destruct Hin as [row [Hrow Hitem]].
  rewrite Forall_forall in H. specialize (H row Hrow).
  rewrite Forall_forall in H. now apply H.
Qed.

(** What decoding the attribute of [buildIndexAttr] gives. *)
Lemma buildIndexAttr_decodes (array : ndarray) :
  Forall (Forall (fun item => length item = itemsize (dtype array)))
    (items array) ->
  exists att,
    Geom.buildIndexAttr array = inr att
    /\ attributeType att = IndexAttribute
    /\ vertexSize att = 1
    /\ count att = np_size array
    /\ yielded (Geom.iterAttr att)
       = map (fun item => [item_value (dtype array) item])
           (concat (items array))
    /\ raised (Geom.iterAttr att) = None.
Proof.
  intros Hitems.
  pose proof (items_flat_uniform array Hitems) as Hflat.
  destruct (basetype_numpy_codes_reverse_spec (dtype array))
    as [t [Hrev [Hcode Hwidth]]].
  unfold Geom.buildIndexAttr. rewrite Hrev.
  eexists. split; [reflexivity |].
  cbv zeta.
  set (att := setCount _ _).
  assert (Hbuf : buffer att = concat (concat (items array))).
  { subst att. cbn. unfold tobytes. apply concat_map_concat. }
  assert (Hstart : forall k, element_start att k = k * itemsize (dtype array)).
  { intros k. unfold element_start, eff_stride. subst att. cbn.
    now rewrite Hwidth. }
  assert (Hfits : forall k, k < count att -> fits att k).
  { intros k Hk. unfold fits. rewrite Hstart, Hbuf.
    rewrite (length_concat_uniform (itemsize (dtype array))) by assumption.
    change (vertexBaseType att) with t. rewrite Hwidth.
    change (eff_size att) with 1.
    change (count att) with (length (concat (items array))) in Hk. nia. }
  destruct (geom_iterAttr_complete att Hfits) as [Hy Hr].
  repeat split; try reflexivity; [| exact Hr].
  rewrite Hy. change (count att) with (length (concat (items array))).
  apply map_seq_nth_error. intros k item Hk. simpl.
  unfold tuple_at. change (eff_size att) with 1.
  change (vertexBaseType att) with t.
  unfold tuple_from. cbn [seq map]. rewrite Hstart, Hbuf, Hwidth, Hcode.
  rewrite Nat.add_0_r.
  rewrite (py_slice_concat_item _ _ _ item Hflat Hk). reflexivity.
Qed.

(** X5.  [buildIndexAttr] and the decoders, there and back.  For an array whose
    items have the item size of its scalar type (any shape, also with no
    element at all), [buildIndexAttr] succeeds and builds an index attribute
    that counts the elements of the array; both decoders yield, without an
    exception, the elements in row-major order, each as a tuple of one
    component. *)
Theorem buildIndexAttr_round_trip (array : ndarray) :
  Forall (Forall (fun item => length item = itemsize (dtype array)))
    (items array) ->
  exists att,
    Geom.buildIndexAttr array = inr att
    /\ attributeType att = IndexAttribute
    /\ count att = np_size array
    /\ yielded (Geom.iterAttr att)
       = map (fun item => [item_value (dtype array) item])
           (concat (items array))
    /\ raised (Geom.iterAttr att) = None
    /\ yielded (GeomView.iterAttr att) = yielded (Geom.iterAttr att)
    /\ raised (GeomView.iterAttr att) = None.
Proof.
  intros Hitems.
  destruct (buildIndexAttr_decodes array Hitems)
    as [att [Hb [Hty [Hvs [Hc [Hy Hr]]]]]].
  exists att. repeat split; try assumption.
  - apply iterAttr_agree_nonzero. rewrite Hvs. discriminate.
  - rewrite <- Hr. apply iterAttr_agree_nonzero. rewrite Hvs. discriminate.
Qed.

Lemma buildIndexAttr_round_trip_witness :
  exists att,
    Geom.buildIndexAttr sample_triangles = inr att
    /\ attributeType att = IndexAttribute
    /\ count att = np_size sample_triangles
    /\ yielded (Geom.iterAttr att)
       = map (fun item => [item_value (dtype sample_triangles) item])
           (concat (items sample_triangles))
    /\ raised (Geom.iterAttr att) = None
    /\ yielded (GeomView.iterAttr att) = yielded (Geom.iterAttr att)
    /\ raised (GeomView.iterAttr att) = None.
Proof.
  apply buildIndexAttr_round_trip. repeat constructor.
Defined.

Lemma islice_concat_uniform {A : Type} (fuel n : nat) (rows : list (list A)) :
  0 < n -> Forall (fun r => length r = n) rows ->
  length (concat rows) < fuel ->
  islice_until_empty fuel n (concat rows) = Some rows.
Proof.
  intros Hn Hu. revert fuel.
  induction Hu as [| r rows Hr _ IH]; intros fuel Hf.
  - destruct fuel; [simpl in Hf; lia |]. simpl. now rewrite firstn_nil.
  - destruct fuel; [lia |].
    change (concat (r :: rows)) with (r ++ concat rows) in *.
    rewrite length_app in Hf.
    cbn [islice_until_empty].
    rewrite firstn_app, skipn_app, Hr, Nat.sub_diag.
    rewrite firstn_all2, skipn_all2 by lia.
    cbn [firstn skipn]. rewrite app_nil_r. cbn [app].
    destruct r as [| a r]; [simpl in Hr; lia |].
    rewrite IH by lia. reflexivity.
Qed.

(** X6.  The triangles come back.  For a rectangular index array with [n > 0]
    columns (three for triangles), grouping by [n] what a decoder yields for
    the attribute of [buildIndexAttr] gives back the rows of the array, in
    either module, and [geom.grouper] has no need of the fill value. *)
Theorem index_rows_regrouped (array : ndarray) (att : QAttribute) :
  rectangular array -> 0 < num_columns array ->
  Geom.buildIndexAttr array = inr att ->
  Geom.grouper (yielded (Geom.iterAttr att)) (num_columns array)
  = Some (map (map (fun item => Some [item_value (dtype array) item]))
            (items array))
  /\ GeomView.grouper (yielded (GeomView.iterAttr att)) (num_columns array)
     = Some (map (map (fun item => [item_value (dtype array) item]))
               (items array)).
Proof.
  intros [Hrows Hitems] Hn Hb.
  destruct (buildIndexAttr_decodes array Hitems)
    as [att' [Hb' [Hty [Hvs [Hc [Hy Hr]]]]]].
  rewrite Hb in Hb'. inversion Hb'; subst att'. clear Hb'.
  assert (Hv : yielded (GeomView.iterAttr att) = yielded (Geom.iterAttr att)).
  { apply iterAttr_agree_nonzero. rewrite Hvs. discriminate. }
  rewrite Hv, Hy, concat_map.
  set (rows' := map (map (fun item => [item_value (dtype array) item]))
                  (items array)).
  assert (Hu : Forall (fun r => length r = num_columns array) rows').
  { subst rows'. apply Forall_forall. intros r Hin.
    apply in_map_iff in Hin. destruct Hin as [row [<- Hrow]].
    rewrite length_map. rewrite Forall_forall in Hrows. now apply Hrows. }
  assert (Hg : GeomView.grouper (concat rows') (num_columns array)
               = Some rows').
  { unfold GeomView.grouper. apply islice_concat_uniform; auto. }
  split; [| exact Hg].
  unfold Geom.grouper, zip_longest_shared.
  destruct (num_columns array) as [| m] eqn:En; [lia |].
  rewrite zl_loop_islice by lia.
  unfold GeomView.grouper in Hg. rewrite Hg. cbn [option_map]. f_equal.
  subst rows'. rewrite !map_map. apply map_ext_in. intros row Hrow.
  unfold pad_group. rewrite !length_map.
  rewrite Forall_forall in Hrows. rewrite (Hrows row Hrow), Nat.sub_diag.
  simpl repeat. now rewrite app_nil_r, map_map.
Qed.

Lemma index_rows_regrouped_witness :
  Geom.grouper
    (yielded (Geom.iterAttr
       (mkAttr EmptyString UnsignedShort 1 IndexAttribute
          (tobytes sample_triangles) 0 0 6)))
    (num_columns sample_triangles)
  = Some (map (map (fun item =>
                      Some [item_value (dtype sample_triangles) item]))
            (items sample_triangles))
  /\ GeomView.grouper
       (yielded (GeomView.iterAttr
          (mkAttr EmptyString UnsignedShort 1 IndexAttribute
             (tobytes sample_triangles) 0 0 6)))
       (num_columns sample_triangles)
     = Some (map (map (fun item => [item_value (dtype sample_triangles) item]))
               (items sample_triangles)).
Proof.
  apply index_rows_regrouped.
  - split; repeat constructor.
  - cbn. lia.
  - reflexivity.
Defined.

Lemma geom_iterAttr_unfit (att : QAttribute) (k : nat) :
  k < count att -> ~ fits att k ->
  raised (Geom.iterAttr att) = Some StructError.
Proof.
  intros Hk Hf. rewrite geom_iterAttr_unfold.
  match goal with
  | |- context [for_yield ?b ?s] =>
      destruct (for_yield_outcome b s) as [[H1 _] [H2 _]]
  end.
  match goal with |- ?r = _ => destruct r as [e |] eqn:Hr end.
  - destruct (H2 e eq_refl) as [i [Hi Hie]].
    apply in_map_iff in Hi. destruct Hi as [k' [<- Hk']].
    unfold read_slice in Hie. simpl in Hie.
    destruct (fits_dec att k') as [Hf' | Hf'].
    + rewrite (geom_body_fits att k' Hf') in Hie. discriminate.
    + rewrite (geom_body_short att k' Hf') in Hie. now inversion Hie.
  - destruct (H1 eq_refl (element_start att k)) as [d Hd].
    { apply in_map. apply in_seq. lia. }
    unfold read_slice in Hd. simpl in Hd.
    rewrite (geom_body_short att k Hf) in Hd. discriminate.
Qed.

(** X7.  What [buildVertexAttrs] checks and what it leaves to the decoder, for
    an array of one of the nine base types.  On an array without rows it
    raises [IndexError] whatever the specs.  On an array with rows it
    succeeds whatever the specs, and builds exactly one attribute per spec,
    in the order of the specs: a vertex attribute named after the spec, of
    as many components as the spec has columns, counting the rows, over the
    packed bytes of the array.  It does not look at the column ranges: when
    the array is rectangular, the attribute of a spec of at least one column
    that reaches past the last column ends in [struct.error] when decoded. *)
Theorem buildVertexAttrs_unchecked_specs (array : ndarray)
  (attrspecs : list Geom.AttrSpec) :
  (items array = [] -> Geom.buildVertexAttrs array attrspecs = inl IndexError)
  /\ (items array <> [] ->
      exists attrs,
        Geom.buildVertexAttrs array attrspecs = inr attrs
        /\ Forall2
             (fun asp att =>
                name att = Geom.asp_name asp
                /\ attributeType att = VertexAttribute
                /\ vertexSize att = Geom.numcols asp
                /\ count att = length (items array)
                /\ buffer att = tobytes array
                /\ (rectangular array ->
                    0 < Geom.numcols asp ->
                    num_columns array < Geom.column asp + Geom.numcols asp ->
                    raised (Geom.iterAttr att) = Some StructError))
             attrspecs attrs).
Proof.
  split.
  - intros H. unfold Geom.buildVertexAttrs. now rewrite H.
  - intros Hrows.
    destruct (basetype_numpy_codes_reverse_spec (dtype array))
      as [t [Hrev [Hcode Hwidth]]].
    unfold Geom.buildVertexAttrs. rewrite Hrev.
    destruct (items array) as [| row0 rows] eqn:Hitems; [congruence |].
    eexists. split; [reflexivity |].
    induction attrspecs as [| asp specs IH]; simpl; constructor; [| exact IH].
    cbn [name attributeType vertexSize count buffer].
    repeat (split; [reflexivity |]).
    intros Hrect Hnc Hpast.
    pose proof (length_tobytes array Hrect) as Hlen.
    unfold num_columns in *. rewrite Hitems in *.
    pose proof (basetype_widths_pos t) as Hw.
    apply geom_iterAttr_unfit with (k := length rows).
    + cbn. lia.
    + unfold fits, element_start, eff_stride, eff_size.
      cbn [vertexBaseType byteStride byteOffset vertexSize buffer length].
      rewrite Hlen, <- Hwidth. cbn [length].
      destruct (Nat.eqb_spec (Geom.numcols asp) 0); [lia |].
      destruct (Nat.eqb_spec (length row0 * basetype_widths t) 0); nia.
Qed.

Lemma buildVertexAttrs_unchecked_specs_witness :
  exists attrs,
    Geom.buildVertexAttrs sample_array [Geom.mkAttrSpec "normal" 2 3]
    = inr attrs
    /\ Forall2
         (fun asp att =>
            name att = Geom.asp_name asp
            /\ attributeType att = VertexAttribute
            /\ vertexSize att = Geom.numcols asp
            /\ count att = length (items sample_array)
            /\ buffer att = tobytes sample_array
            /\ (rectangular sample_array ->
                0 < Geom.numcols asp ->
                num_columns sample_array
                < Geom.column asp + Geom.numcols asp ->
                raised (Geom.iterAttr att) = Some StructError))
         [Geom.mkAttrSpec "normal" 2 3] attrs.
Proof.
  apply (proj2 (buildVertexAttrs_unchecked_specs sample_array
                  [Geom.mkAttrSpec "normal" 2 3])).
  discriminate.
Defined.

Example buildVertexAttrs_past_last_column :
  yielded (Geom.iterAttr
             (mkAttr "normal" Float 3 VertexAttribute (tobytes sample_array)
                12 8 2))
  = [ [PyFloat (S754_finite false 12582912 (-22));
       PyFloat (S754_finite false 8388608 (-21));
       PyFloat (S754_finite false 10485760 (-21))] ]
  /\ raised (Geom.iterAttr
               (mkAttr "normal" Float 3 VertexAttribute (tobytes sample_array)
                  12 8 2))
     = Some StructError.
Proof. split; reflexivity. Qed.

(** * More on the boxes *)

Section BoxGeometry.
Local Open Scope Q_scope.

Lemma fold_min_with_zero (m : Q) (xs : list Q) :
  is_min m xs -> (fold_left py_min xs 0 == m <-> m <= 0).
Proof.
  intros [[a [Ha Hea]] Hm].
  destruct (fold_py_min_spec xs 0) as [Hin Hle].
  split.
  - intros H. rewrite <- H. apply Hle. now left.
  - intros H0. apply Qle_antisym.
    + rewrite <- Hea. apply Hle. now right.
    + destruct Hin as [Hin | Hin]; [rewrite <- Hin; exact H0 | now apply Hm].
Qed.

Lemma fold_max_with_zero (m : Q) (xs : list Q) :
  is_max m xs -> (fold_left py_max xs 0 == m <-> 0 <= m).
Proof.
  intros [[a [Ha Hea]] Hm].
  destruct (fold_py_max_spec xs 0) as [Hin Hle].
  split.
  - intros H. rewrite <- H. apply Hle. now left.
  - intros H0. apply Qle_antisym.
    + destruct Hin as [Hin | Hin]; [rewrite <- Hin; exact H0 | now apply Hm].
    + rewrite <- Hea. apply Hle. now right.
Qed.

(** X9.  The older [compute_AABB] against [AABB.__init__].  Its result is the box
    that [AABB.__init__] builds when the origin is put in front of the
    vertices; so, for vertices that [AABB.__init__] accepts, the two agree
    exactly when the box of [AABB.__init__] holds the origin. *)
Theorem compute_AABB_against_AABB_init (it : list vertex) :
  Geom.AABB_init ((0, 0, 0) :: it)
  = inr (box_of (fst (GeomView.compute_AABB it))
           (snd (GeomView.compute_AABB it)))
  /\ forall box,
      Geom.AABB_init it = inr box ->
      (vec3d_eq (fst (GeomView.compute_AABB it)) (Geom.min box)
       /\ vec3d_eq (snd (GeomView.compute_AABB it)) (Geom.max box))
      <-> (x (Geom.min box) <= 0 <= x (Geom.max box)
           /\ y (Geom.min box) <= 0 <= y (Geom.max box)
           /\ z (Geom.min box) <= 0 <= z (Geom.max box)).
Proof.
  split.
  - rewrite AABB_init_cons. unfold GeomView.compute_AABB.
    rewrite fold_vertex_coordinates. reflexivity.
  - intros box Hbox.
    destruct (AABB_init_extremes it box Hbox)
      as [H1 [H2 [H3 [H4 [H5 [H6 _]]]]]].
    unfold GeomView.compute_AABB. rewrite fold_vertex_coordinates.
    unfold vec3d_eq. cbn [fst snd x y z vec3d_zero].
    rewrite (fold_min_with_zero _ _ H1), (fold_min_with_zero _ _ H2),
      (fold_min_with_zero _ _ H3), (fold_max_with_zero _ _ H4),
      (fold_max_with_zero _ _ H5), (fold_max_with_zero _ _ H6).
    tauto.
Qed.

Lemma compute_AABB_against_AABB_init_witness :
  (vec3d_eq (fst (GeomView.compute_AABB sample_vertices))
     (Geom.min sample_box)
   /\ vec3d_eq (snd (GeomView.compute_AABB sample_vertices))
        (Geom.max sample_box))
  <-> (x (Geom.min sample_box) <= 0 <= x (Geom.max sample_box)
       /\ y (Geom.min sample_box) <= 0 <= y (Geom.max sample_box)
       /\ z (Geom.min sample_box) <= 0 <= z (Geom.max sample_box)).
Proof.
  apply (proj2 (compute_AABB_against_AABB_init sample_vertices)).
  reflexivity.
Defined.
End BoxGeometry.

(** * Looking up attributes *)

Lemma AttributeType_eqb_eq (a b : AttributeType) :
  AttributeType_eqb a b = true <-> a = b.
Proof. destruct a, b; simpl; split; congruence. Qed.

(** X10.  The attribute that [AABB.__init__] decodes for a Qt3D geometry,
    [getQAttribute] with the default type and the default position name, is
    the one [getVertexAttr] finds for [compute_AABB].  In general
    [getQAttribute] returns an attribute of the geometry with the type asked
    for and, when a name is given, that name, before which no attribute of
    the geometry matches; it returns [None] exactly when no attribute
    matches. *)
Theorem getQAttribute_finds (geom : list QAttribute) (att_type : AttributeType)
  (att_name : option string) :
  GeomView.getVertexAttr geom
  = Geom.getQAttribute geom VertexAttribute (Some defaultPositionAttributeName)
  /\ (forall att,
        Geom.getQAttribute geom att_type att_name = Some att ->
        exists before after,
          geom = before ++ att :: after
          /\ attributeType att = att_type
          /\ (forall n, att_name = Some n -> name att = n)
          /\ Forall
               (fun a =>
                  attributeType a <> att_type
                  \/ exists n, att_name = Some n /\ name a <> n)
               before)
  /\ (Geom.getQAttribute geom att_type att_name = None
      <-> Forall
            (fun a =>
               attributeType a <> att_type
               \/ exists n, att_name = Some n /\ name a <> n)
            geom).
Proof.
  set (matches := fun att : QAttribute =>
         AttributeType_eqb (attributeType att) att_type
         && match att_name with
            | None => true
            | Some n => String.eqb (name att) n
            end).
  assert (Hno : forall a, matches a = false <->
            (attributeType a <> att_type
             \/ exists n, att_name = Some n /\ name a <> n)).
  { intros a. unfold matches. rewrite andb_false_iff. split.
    - intros [H | H].
      + left. intros E. apply AttributeType_eqb_eq in E. congruence.
      + destruct att_name as [n |]; [| discriminate].
        right. exists n. split; [reflexivity |].
        now apply String.eqb_neq.
    - intros [H | [n [-> H]]].
      + left. destruct (AttributeType_eqb (attributeType a) att_type) eqn:E;
          [| reflexivity].
        apply AttributeType_eqb_eq in E. contradiction.
      + right. now apply String.eqb_neq. }
  split; [| split].
  - unfold GeomView.getVertexAttr, Geom.getQAttribute,
      defaultPositionAttributeName.
    induction geom as [| a geom IH]; [reflexivity |].
    simpl. rewrite andb_comm. now rewrite IH.
  - unfold Geom.getQAttribute. fold matches.
    induction geom as [| a geom IH]; intros att H; [discriminate |].
    simpl in H. destruct (matches a) eqn:Ha.
    + inversion H; subst. exists [], geom. split; [reflexivity |].
      unfold matches in Ha. apply andb_true_iff in Ha. destruct Ha as [Ht Hn].
      split; [now apply AttributeType_eqb_eq |].
      split; [| constructor].
      intros n ->. now apply String.eqb_eq.
    + destruct (IH att H) as [before [after [Hg [Ht [Hn Hb]]]]].
      exists (a :: before), after. rewrite Hg.
      split; [reflexivity |]. split; [assumption |]. split; [assumption |].
      constructor; [now apply Hno | assumption].
  - unfold Geom.getQAttribute. fold matches. split.
    + intros H. apply Forall_forall. intros a Ha. apply Hno.
      eapply find_none; eassumption.
    + intros H. rewrite Forall_forall in H.
      destruct (find matches geom) as [a |] eqn:E; [| reflexivity].
      apply find_some in E. destruct E as [Hin Hm].
      apply H, Hno in Hin. congruence.
Qed.

Lemma getQAttribute_finds_witness :
  exists before after,
    [att_index16; att_pairs] = before ++ att_pairs :: after
    /\ attributeType att_pairs = VertexAttribute
    /\ (forall n, Some "position"%string = Some n ->
                  name att_pairs = n)
    /\ Forall
         (fun a =>
            attributeType a <> VertexAttribute
            \/ exists n,
                Some "position"%string = Some n /\ name a <> n)
         before.
Proof.
  apply (proj1 (proj2 (getQAttribute_finds [att_index16; att_pairs]
                         VertexAttribute
                         (Some "position"%string)))).
  reflexivity.
Defined.

(** * The camera's field of view *)

Section FieldOfView.
Local Open Scope Q_scope.

Lemma py_max_spec (a b : Q) :
  (a < b -> py_max a b = b) /\ (b <= a -> py_max a b = a).
Proof.
  unfold py_max. split; intros H.
  - destruct (b ?= a) eqn:E; try reflexivity; exfalso.
    + apply Qeq_alt in E. rewrite E in H. revert H. apply Qlt_irrefl.
    + apply Qlt_alt in E. apply (Qlt_irrefl a). eapply Qlt_trans; eassumption.
  - destruct (b ?= a) eqn:E; try reflexivity.
    apply Qgt_alt in E. exfalso. eapply Qlt_not_le; eassumption.
Qed.

Lemma py_min_spec (a b : Q) :
  (b < a -> py_min a b = b) /\ (a <= b -> py_min a b = a).
Proof.
  unfold py_min. split; intros H.
  - destruct (b ?= a) eqn:E; try reflexivity; exfalso.
    + apply Qeq_alt in E. rewrite E in H. revert H. apply Qlt_irrefl.
    + apply Qgt_alt in E. apply (Qlt_irrefl a). eapply Qlt_trans; eassumption.
  - destruct (b ?= a) eqn:E; try reflexivity.
    apply Qlt_alt in E. exfalso. eapply Qlt_not_le; eassumption.
Qed.

(** X11.  [wheelEvent] keeps the field of view between 5 and 150: the new value is
    the old one minus the wheel step when that lies in the range, and the
    nearer end of the range when it does not. *)
Theorem wheelEvent_field_of_view (fov : Q) (delta_y : Z) :
  5 <= GeomView.wheelEvent fov delta_y <= 150
  /\ (5 <= fov - inject_Z delta_y <= 150 ->
      GeomView.wheelEvent fov delta_y = fov - inject_Z delta_y)
  /\ (fov - inject_Z delta_y < 5 -> GeomView.wheelEvent fov delta_y = 5)
  /\ (150 < fov - inject_Z delta_y -> GeomView.wheelEvent fov delta_y = 150).
Proof.
  unfold GeomView.wheelEvent, GeomView.clamp.
  set (v := fov - inject_Z delta_y).
  destruct (py_max_spec v 5) as [M1 M2].
  assert (C : (5 <= v -> py_min (py_max v 5) 150 = py_min v 150)
              /\ (v < 5 -> py_min (py_max v 5) 150 = 5)).
  { split; intros H.
    - now rewrite M2.
    - rewrite M1 by assumption. apply py_min_spec. discriminate. }
  destruct C as [C1 C2].
  destruct (py_min_spec v 150) as [N1 N2].
  assert (R : 5 <= v <= 150 -> py_min (py_max v 5) 150 = v).
  { intros [H1 H2]. rewrite C1 by assumption. now apply N2. }
  assert (L : v < 5 -> py_min (py_max v 5) 150 = 5) by exact C2.
  assert (U : 150 < v -> py_min (py_max v 5) 150 = 150).
  { intros H. rewrite C1 by lra. now apply N1. }
  split; [| repeat split; assumption].
  destruct (Qlt_le_dec v 5) as [H | H].
  - rewrite L by assumption. split; [apply Qle_refl | discriminate].
  - destruct (Qlt_le_dec 150 v) as [H' | H'].
    + rewrite U by assumption. split; [discriminate | apply Qle_refl].
    + rewrite R by (split; assumption). split; assumption.
Qed.

Lemma wheelEvent_field_of_view_witness :
  GeomView.wheelEvent 45 120 = 5.
Proof.
  apply (proj1 (proj2 (proj2 (wheelEvent_field_of_view 45 120)))).
  reflexivity.
Defined.
End FieldOfView.

(** * The stacked widget that never shrinks *)

Section StackedWidget.
Local Open Scope Z_scope.
Import MainWindow.

Lemma fold_max_ge (xs : list Z) (a : Z) :
  a <= fold_left Z.max xs a
  /\ Forall (fun b => b <= fold_left Z.max xs a) xs.
Proof.
  revert a. induction xs as [| c xs IH]; intros a; simpl.
  - split; [lia | constructor].
  - destruct (IH (Z.max a c)) as [H1 H2]. split; [lia |].
    constructor; [lia | assumption].
Qed.

Lemma py_max_of_ge (xs : list Z) (m : Z) :
  py_max_of xs = inr m -> Forall (fun b => b <= m) xs.
Proof.
  destruct xs as [| a xs]; [discriminate |].
  simpl. intros H. inversion H; subst.
  destruct (fold_max_ge xs a) as [H1 H2]. constructor; assumption.
Qed.

Lemma map_indexed_nth_error {A B : Type} (f : nat -> A -> B) (l : list A)
  (s i : nat) :
  nth_error
    (map (fun ip : nat * A => let (k, a) := ip in f k a)
         (combine (seq s (length l)) l)) i
  = option_map (f (s + i)%nat) (nth_error l i).
Proof.
  revert s i. induction l as [| a l IH]; intros s i.
  - destruct i; reflexivity.
  - destruct i as [| i]; simpl.
    + now rewrite Nat.add_0_r.
    + rewrite IH. now rewrite Nat.add_succ_r.
Qed.

(** What [_updateSizePolicy] does. *)
Lemma updateSizePolicy_effect (self self' : AutoResizingStackedWidget)
  (current_idx : Z) :
  _updateSizePolicy self current_idx = inr self' ->
  k_max_width self <= k_max_width self'
  /\ Forall (fun page => sizeHint_width page <= k_max_width self')
       (pages self)
  /\ currentIndex self' = currentIndex self
  /\ length (pages self') = length (pages self)
  /\ forall i,
      nth_error (pages self') i
      = option_map (page_after (k_max_width self') current_idx i)
          (nth_error (pages self) i).
Proof.
  unfold _updateSizePolicy.
  destruct (py_max_of (map sizeHint_width (pages self))) as [e | m] eqn:Hm;
    [discriminate |].
  intros H. inversion H; subst self'. clear H. cbn [k_max_width pages
    currentIndex].
  apply py_max_of_ge in Hm. rewrite Forall_map in Hm.
  split; [lia |]. split.
  { eapply Forall_impl; [| exact Hm]. simpl. intros page Hp. lia. }
  split; [reflexivity |]. split.
  { rewrite length_map, length_combine, length_seq. lia. }
  intros i.
  apply (map_indexed_nth_error
           (page_after (Z.max (k_max_width self) m) current_idx)
           (pages self) 0 i).
Qed.

(** X12.  [setCurrentIndex] never lets the widget shrink in width, and it needs a
    page.  When it has to look at the size policies (on the first call, or
    when the index changes) and the widget has no page, it raises
    [ValueError]; with a page it succeeds.  After a call that succeeds,
    [k_max_width] is not smaller than before; if the policies were looked
    at, it is at least the width hint of every page, every page has it as
    its minimum width, and the page of the new index, alone, has the vertical
    policy [Maximum]; otherwise no page is touched. *)
Theorem setCurrentIndex_never_shrinks (self : AutoResizingStackedWidget)
  (idx : Z) :
  (pages self = [] -> (k_max_width self < 0 \/ idx <> currentIndex self) ->
   setCurrentIndex self idx = inl ValueError)
  /\ (pages self <> [] -> exists self', setCurrentIndex self idx = inr self')
  /\ forall self',
      setCurrentIndex self idx = inr self' ->
      k_max_width self <= k_max_width self'
      /\ length (pages self') = length (pages self)
      /\ ((k_max_width self < 0 \/ idx <> currentIndex self) ->
          Forall (fun page => sizeHint_width page <= k_max_width self')
            (pages self')
          /\ forall i,
              nth_error (pages self') i
              = option_map (page_after (k_max_width self') idx i)
                  (nth_error (pages self) i))
      /\ (0 <= k_max_width self -> idx = currentIndex self -> self' = self).
Proof.
  unfold setCurrentIndex.
  destruct ((k_max_width self <? 0) || negb (idx =? currentIndex self))
    eqn:Hcond.
  - assert (Hc : k_max_width self < 0 \/ idx <> currentIndex self).
    { apply orb_true_iff in Hcond. destruct Hcond as [H | H].
      - left. now apply Z.ltb_lt.
      - right. apply negb_true_iff in H. now apply Z.eqb_neq. }
    split; [| split].
    + intros Hp _. unfold _updateSizePolicy. now rewrite Hp.
    + intros Hp. unfold _updateSizePolicy.
      destruct (pages self) as [| p ps] eqn:E; [congruence |].
      simpl. eexists. reflexivity.
    + intros self' H.
      destruct (_updateSizePolicy self idx) as [e | s1] eqn:Hu;
        [discriminate |].
      inversion H; subst self'. clear H.
      destruct (updateSizePolicy_effect _ _ _ Hu)
        as [Hk [Hh [Hci [Hlen Hnth]]]].
      assert (Hq : k_max_width (QStackedWidget_setCurrentIndex s1 idx)
                   = k_max_width s1
                   /\ pages (QStackedWidget_setCurrentIndex s1 idx)
                      = pages s1).
      { unfold QStackedWidget_setCurrentIndex.
        destruct ((0 <=? idx) && (idx <? Z.of_nat (length (pages s1))));
          split; reflexivity. }
      destruct Hq as [Hq1 Hq2]. rewrite Hq1, Hq2.
      split; [assumption |]. split; [assumption |]. split.
      * intros _. split; [| exact Hnth].
        apply Forall_forall. intros page Hin.
        apply In_nth_error in Hin. destruct Hin as [i Hi].
        rewrite Hnth in Hi.
        destruct (nth_error (pages self) i) as [p0 |] eqn:E0;
          [| discriminate].
        simpl in Hi. inversion Hi; subst page. cbn [sizeHint_width page_after].
        rewrite Forall_forall in Hh. apply Hh.
        eapply nth_error_In; eassumption.
      * intros H0 Heq. destruct Hc as [Hc | Hc]; [lia | contradiction].
  - apply orb_false_iff in Hcond. destruct Hcond as [H1 H2].
    apply Z.ltb_ge in H1. apply negb_false_iff in H2. apply Z.eqb_eq in H2.
    split; [| split].
    + intros _ [Hc | Hc]; [lia | contradiction].
    + intros _. eexists. reflexivity.
    + intros self' H. inversion H; subst self'. clear H.
      assert (Hsame : QStackedWidget_setCurrentIndex self idx = self).
      { unfold QStackedWidget_setCurrentIndex. subst idx.
        destruct ((0 <=? currentIndex self)
                  && (currentIndex self <? Z.of_nat (length (pages self))));
          [destruct self |]; reflexivity. }
      rewrite Hsame. split; [lia |]. split; [reflexivity |]. split.
      * intros [Hc | Hc]; [lia | contradiction].
      * intros _ _. reflexivity.
Qed.

Lemma setCurrentIndex_never_shrinks_witness :
  exists self', setCurrentIndex sample_stack 1 = inr self'.
Proof.
  apply (proj1 (proj2 (setCurrentIndex_never_shrinks sample_stack 1))).
  discriminate.
Defined.

Example setCurrentIndex_sample :
  setCurrentIndex sample_stack 1
  = inr (mkStack 200
           [ mkPage 120 Preferred Ignored (200, 0);
             mkPage 200 Expanding Maximum (200, 0) ] 1)
  /\ setCurrentIndex AutoResizingStackedWidget_init 0 = inl ValueError.
Proof. split; reflexivity. Qed.
End StackedWidget.

(** * Pretty names of files *)

Section PrettyNames.
Import MainWindow.
Local Open Scope string_scope.

Ltac by_cases_on_char c :=
  destruct c as [[|] [|] [|] [|] [|] [|] [|] [|]]; vm_compute;
  try reflexivity; try discriminate; intuition congruence.

Lemma to_lower_to_upper (c : ascii) : to_lower (to_upper c) = to_lower c.
Proof. by_cases_on_char c. Qed.

Lemma to_lower_idempotent (c : ascii) : to_lower (to_lower c) = to_lower c.
Proof. by_cases_on_char c. Qed.

Lemma to_upper_keeps_no_underscore (c : ascii) :
  Ascii.eqb c "_" = false -> Ascii.eqb (to_upper c) "_" = false.
Proof. by_cases_on_char c. Qed.

Lemma to_lower_keeps_no_underscore (c : ascii) :
  Ascii.eqb c "_" = false -> Ascii.eqb (to_lower c) "_" = false.
Proof. by_cases_on_char c. Qed.

Lemma digit_no_underscore (c : ascii) :
  is_digit c = true ->
  Ascii.eqb c "_" = false /\ to_upper c = c /\ to_lower c = c.
Proof. by_cases_on_char c. Qed.

Lemma string_map_app (f : ascii -> ascii) (a b : string) :
  string_map f (a ++ b) = string_map f a ++ string_map f b.
Proof. induction a as [| c a IH]; simpl; [reflexivity | now rewrite IH]. Qed.

Lemma string_map_map (f g : ascii -> ascii) (s : string) :
  string_map f (string_map g s) = string_map (fun c => f (g c)) s.
Proof. induction s as [| c s IH]; simpl; [reflexivity | now rewrite IH]. Qed.

Lemma string_map_ext_in (f g : ascii -> ascii) (p : ascii -> bool)
  (s : string) :
  (forall c, p c = true -> f c = g c) ->
  string_forall p s = true -> string_map f s = string_map g s.
Proof.
  intros H. induction s as [| c s IH]; simpl; [reflexivity |].
  intros Hs. apply andb_true_iff in Hs. destruct Hs as [Hc Hs].
  now rewrite (H c Hc), IH.
Qed.

Lemma string_map_length (f : ascii -> ascii) (s : string) :
  String.length (string_map f s) = String.length s.
Proof. induction s as [| c s IH]; simpl; [reflexivity | now rewrite IH]. Qed.

Lemma string_forall_app (p : ascii -> bool) (a b : string) :
  string_forall p (a ++ b) = string_forall p a && string_forall p b.
Proof.
  induction a as [| c a IH]; simpl; [reflexivity |].
  now rewrite IH, andb_assoc.
Qed.

Lemma string_forall_map (p : ascii -> bool) (f : ascii -> ascii) (s : string) :
  (forall c, p c = true -> p (f c) = true) ->
  string_forall p s = true -> string_forall p (string_map f s) = true.
Proof.
  intros H. induction s as [| c s IH]; simpl; [reflexivity |].
  intros Hs. apply andb_true_iff in Hs. destruct Hs as [Hc Hs].
  now rewrite (H c Hc), IH.
Qed.

Lemma join_cons2 (sep w w' : string) (ws : list string) :
  join sep (w :: w' :: ws) = w ++ sep ++ join sep (w' :: ws).
Proof. reflexivity. Qed.

Lemma string_map_join (f : ascii -> ascii) (sep : string)
  (ws : list string) :
  string_map f (join sep ws)
  = join (string_map f sep) (map (string_map f) ws).
Proof.
  induction ws as [| w ws IH]; [reflexivity |].
  destruct ws as [| w' ws]; [reflexivity |].
  rewrite join_cons2. cbn [map]. rewrite join_cons2.
  rewrite !string_map_app. now rewrite IH.
Qed.

Lemma string_forall_join (p : ascii -> bool) (sep : string)
  (ws : list string) :
  string_forall p sep = true ->
  Forall (fun w => string_forall p w = true) ws ->
  string_forall p (join sep ws) = true.
Proof.
  intros Hsep. induction 1 as [| w ws Hw Hws IH]; [reflexivity |].
  destruct ws as [| w' ws]; [exact Hw |].
  rewrite join_cons2, !string_forall_app, Hw, Hsep, IH. reflexivity.
Qed.

(** [sep.join(s.split(sep))] is [s], and no word of [s.split(sep)] holds the
    separator. *)
Lemma split_pair_spec (sep : ascii) (s : string) :
  join (String sep EmptyString) (fst (split_pair sep s) :: snd (split_pair sep s))
  = s
  /\ Forall (fun w => has_no sep w = true)
       (fst (split_pair sep s) :: snd (split_pair sep s)).
Proof.
  induction s as [| c s [IH1 IH2]].
  - split; [reflexivity | repeat constructor].
  - cbn [split_pair]. destruct (split_pair sep s) as [w ws].
    cbn [fst snd] in IH1, IH2.
    destruct (Ascii.eqb c sep) eqn:E; cbn [fst snd].
    + apply Ascii.eqb_eq in E. subst c. split.
      * rewrite join_cons2, IH1. reflexivity.
      * constructor; [reflexivity | assumption].
    + split.
      * destruct ws as [| w' ws].
        -- cbn [join] in *. now rewrite IH1.
        -- rewrite join_cons2 in *. rewrite <- IH1. reflexivity.
      * inversion IH2; subst.
        constructor; [| assumption].
        unfold has_no in *. simpl. now rewrite E.
Qed.

Lemma py_split_join (sep : ascii) (s : string) :
  join (String sep EmptyString) (py_split sep s) = s.
Proof.
  unfold py_split. pose proof (proj1 (split_pair_spec sep s)) as H.
  destruct (split_pair sep s). exact H.
Qed.

Lemma py_split_words (sep : ascii) (s : string) :
  Forall (fun w => has_no sep w = true) (py_split sep s).
Proof.
  unfold py_split. pose proof (proj2 (split_pair_spec sep s)) as H.
  destruct (split_pair sep s). exact H.
Qed.

Lemma split_pair_no_sep (sep : ascii) (d rest : string) :
  has_no sep d = true ->
  split_pair sep (d ++ String sep rest)
  = (d, fst (split_pair sep rest) :: snd (split_pair sep rest)).
Proof.
  induction d as [| c d IH]; intros H.
  - simpl. rewrite Ascii.eqb_refl. now destruct (split_pair sep rest).
  - unfold has_no in H. simpl in H. apply andb_true_iff in H.
    destruct H as [Hc Hd]. apply negb_true_iff in Hc.
    simpl. rewrite (IH Hd), Hc. reflexivity.
Qed.

Lemma py_split_no_sep (sep : ascii) (d rest : string) :
  has_no sep d = true ->
  py_split sep (d ++ String sep rest) = d :: py_split sep rest.
Proof.
  intros H. unfold py_split. rewrite (split_pair_no_sep sep d rest H).
  now destruct (split_pair sep rest).
Qed.

Lemma py_split_single (sep : ascii) (d : string) :
  has_no sep d = true -> py_split sep d = [d].
Proof.
  unfold py_split. induction d as [| c d IH]; intros H; [reflexivity |].
  unfold has_no in H. simpl in H. apply andb_true_iff in H.
  destruct H as [Hc Hd]. apply negb_true_iff in Hc.
  simpl. specialize (IH Hd). destruct (split_pair sep d) as [w ws].
  inversion IH; subst. now rewrite Hc.
Qed.

Lemma lower_capitalize (w : string) :
  string_map to_lower (capitalize w) = string_map to_lower w.
Proof.
  destruct w as [| c w]; [reflexivity |].
  simpl. rewrite to_lower_to_upper, string_map_map. f_equal.
  induction w as [| a w IH]; simpl; [reflexivity |].
  now rewrite to_lower_idempotent, IH.
Qed.

Lemma capitalize_no_underscore (w : string) :
  has_no "_" w = true -> has_no "_" (capitalize w) = true.
Proof.
  unfold has_no. destruct w as [| c w]; [reflexivity |].
  simpl. intros H. apply andb_true_iff in H. destruct H as [Hc Hw].
  apply negb_true_iff in Hc.
  rewrite (to_upper_keeps_no_underscore c Hc). simpl.
  apply string_forall_map; [| exact Hw].
  intros a Ha. apply negb_true_iff in Ha. apply negb_true_iff.
  now apply to_lower_keeps_no_underscore.
Qed.

Lemma isdigit_spec (d : string) :
  isdigit d = true ->
  has_no "_" d = true /\ capitalize d = d.
Proof.
  destruct d as [| c d]; [discriminate |].
  unfold isdigit. simpl. intros H. apply andb_true_iff in H.
  destruct H as [Hc Hd].
  destruct (digit_no_underscore c Hc) as [C1 [C2 C3]].
  unfold has_no. simpl. rewrite C1, C2. simpl.
  assert (Hrest : string_forall (fun a => negb (Ascii.eqb a "_")) d = true
                  /\ string_map to_lower d = d).
  { induction d as [| a d IH]; [split; reflexivity |].
    simpl in Hd. apply andb_true_iff in Hd. destruct Hd as [Ha Hd].
    destruct (digit_no_underscore a Ha) as [A1 [A2 A3]].
    destruct (IH Hd) as [I1 I2]. simpl. rewrite A1, A3, I1, I2.
    split; reflexivity. }
  destruct Hrest as [R1 R2]. now rewrite R1, R2.
Qed.

(** The kept words of a stem have no underscore. *)
Lemma kept_words_no_underscore (stem : string) :
  Forall (fun w => has_no "_" w = true)
    (if drops_number stem then tl (py_split "_" stem)
     else py_split "_" stem).
Proof.
  pose proof (py_split_words "_" stem) as H.
  destruct (drops_number stem); [| exact H].
  destruct (py_split "_" stem); [constructor | now inversion H].
Qed.

(** X13.  [prettyNameFromPath] on a stem of ASCII characters.  The name never has
    an underscore.  When no leading number is omitted, the name is the stem
    with every underscore turned into a space and nothing changed but the
    case of letters: it has the length of the stem, and in lower case the two
    are the same. *)
Theorem prettyNameFromPath_recases (stem : string) :
  is_ascii stem = true ->
  has_no "_" (prettyNameFromPath stem) = true
  /\ (drops_number stem = false ->
      string_map to_lower (prettyNameFromPath stem)
      = string_map spaced_lower stem
      /\ String.length (prettyNameFromPath stem) = String.length stem).
Proof.
  intros _.
  assert (Hpretty : prettyNameFromPath stem
            = join " " (map capitalize
                (if drops_number stem then tl (py_split "_" stem)
                 else py_split "_" stem))).
  { unfold prettyNameFromPath, drops_number.
    destruct ((1 <? length (py_split "_" stem))%nat
              && isdigit (hd EmptyString (py_split "_" stem))); reflexivity. }
  split.
  - rewrite Hpretty. apply string_forall_join; [reflexivity |].
    apply Forall_forall. intros w Hw. apply in_map_iff in Hw.
    destruct Hw as [w0 [<- Hw0]]. apply capitalize_no_underscore.
    pose proof (kept_words_no_underscore stem) as H.
    rewrite Forall_forall in H. now apply H.
  - intros Hkeep. rewrite Hkeep in Hpretty.
    assert (Hlow : string_map to_lower (prettyNameFromPath stem)
                   = string_map spaced_lower stem).
    { rewrite Hpretty, string_map_join, map_map.
      rewrite <- (py_split_join "_" stem) at 2.
      rewrite string_map_join. f_equal.
      apply map_ext_in. intros w Hw. rewrite lower_capitalize.
      apply (string_map_ext_in _ _ (fun c => negb (Ascii.eqb c "_"))).
      - intros c Hc. unfold spaced_lower.
        apply negb_true_iff in Hc. now rewrite Hc.
      - pose proof (py_split_words "_" stem) as H.
        rewrite Forall_forall in H. now apply H. }
    split; [exact Hlow |].
    rewrite <- (string_map_length to_lower (prettyNameFromPath stem)).
    rewrite Hlow. apply string_map_length.
Qed.

Lemma prettyNameFromPath_recases_witness :
  has_no "_" (prettyNameFromPath "rhombic_TILING_2") = true
  /\ (drops_number "rhombic_TILING_2" = false ->
      string_map to_lower (prettyNameFromPath "rhombic_TILING_2")
      = string_map spaced_lower "rhombic_TILING_2"
      /\ String.length (prettyNameFromPath "rhombic_TILING_2")
         = String.length "rhombic_TILING_2").
Proof.
  apply prettyNameFromPath_recases. reflexivity.
Defined.

(** X14.  A leading number is omitted only when something follows it.  For a
    number [d] (one or more digits), the name of the stem [d_rest] is made of
    the capitalized words of [rest] alone, in their order; the name of the
    stem [d] itself is [d]. *)
Theorem prettyNameFromPath_leading_number (d rest : string) :
  is_ascii d = true -> is_ascii rest = true -> isdigit d = true ->
  prettyNameFromPath (d ++ "_" ++ rest)
  = join " " (map capitalize (py_split "_" rest))
  /\ prettyNameFromPath d = d.
Proof.
  intros _ _ Hd. destruct (isdigit_spec d Hd) as [Hno Hcap].
  unfold prettyNameFromPath. split.
  - change ("_" ++ rest) with (String "_" rest).
    rewrite (py_split_no_sep "_" d rest Hno).
    cbn [hd tl]. rewrite Hd.
    assert (Hlen : (1 <? length (d :: py_split "_" rest))%nat = true).
    { unfold py_split. destruct (split_pair "_" rest). reflexivity. }
    rewrite Hlen. reflexivity.
  - rewrite (py_split_single "_" d Hno). cbn. exact Hcap.
Qed.

Lemma prettyNameFromPath_leading_number_witness :
  prettyNameFromPath ("06" ++ "_" ++ "rhombic_tiling")
  = join " " (map capitalize (py_split "_" "rhombic_tiling"))
  /\ prettyNameFromPath "06" = "06".
Proof.
  apply prettyNameFromPath_leading_number; reflexivity.
Defined.

(** The example of the source's comment, and a stem with two numbers. *)
Example prettyNameFromPath_examples :
  prettyNameFromPath "06_rhombic_tiling" = "Rhombic Tiling"
  /\ prettyNameFromPath "06_07_x" = "07 X"
  /\ prettyNameFromPath "a__b" = "A  B".
Proof. repeat split; reflexivity. Qed.
End PrettyNames.

(** * The widget classes a UiLoader knows *)

Section UiLoaderFacts.
Import MainWindow.
Variable widget : Type.
Variable super_createWidget : string -> widget -> string -> widget.

Lemma dict_get_set_same {V : Type} (key : string) (value : V)
  (d : list (string * V)) :
  dict_get key (dict_set key value d) = Some value.
Proof.
  unfold dict_get, dict_set. simpl. now rewrite String.eqb_refl.
Qed.

Lemma dict_get_set_other {V : Type} (key key' : string) (value : V)
  (d : list (string * V)) :
  key' <> key -> dict_get key' (dict_set key value d) = dict_get key' d.
Proof.
  intros Hne. unfold dict_get, dict_set. simpl.
  assert (E : String.eqb key key' = false).
  { apply String.eqb_neq. congruence. }
  rewrite E.
  induction d as [| [k v] d IH]; [reflexivity |].
  simpl. destruct (String.eqb k key) eqn:Ek; simpl.
  - apply String.eqb_eq in Ek. subst k. rewrite E. exact IH.
  - destruct (String.eqb k key'); [reflexivity | exact IH].
Qed.

(** X15.  [createWidget] after [registerCustomWidget].  Without a parent it returns
    the base instance, whatever class is asked for.  With a parent, the name
    of a registered class gives a widget made by the class registered last
    under that name; registering a class changes nothing for the other names;
    and a loader without registered classes passes every name on to
    [QUiLoader.createWidget]. *)
Theorem createWidget_after_register (self : UiLoader widget)
  (cls_name : string) (cls : widget -> widget) (className : string)
  (parent : widget) (name : string) :
  createWidget widget super_createWidget
    (registerCustomWidget widget cls_name cls self) className None name
  = baseInstance widget self
  /\ createWidget widget super_createWidget
       (registerCustomWidget widget cls_name cls self) cls_name (Some parent)
       name
     = cls parent
  /\ (className <> cls_name ->
      createWidget widget super_createWidget
        (registerCustomWidget widget cls_name cls self) className
        (Some parent) name
      = createWidget widget super_createWidget self className (Some parent)
          name)
  /\ createWidget widget super_createWidget
       (UiLoader_init widget (baseInstance widget self)) className
       (Some parent) name
     = super_createWidget className parent name.
Proof.
  unfold createWidget, registerCustomWidget.
  cbn [baseInstance customWidgets].
  repeat split.
  - now rewrite dict_get_set_same.
  - intros Hne. now rewrite dict_get_set_other.
Qed.
End UiLoaderFacts.

Lemma createWidget_after_register_witness :
  MainWindow.createWidget nat (fun _ _ _ => 0)
    (MainWindow.registerCustomWidget nat "ColorButton" S
       (MainWindow.UiLoader_init nat 7))
    "QLabel" (Some 3) "label"
  = MainWindow.createWidget nat (fun _ _ _ => 0)
      (MainWindow.UiLoader_init nat 7) "QLabel" (Some 3) "label".
Proof.
  apply (proj1 (proj2 (proj2
    (createWidget_after_register nat (fun _ _ _ => 0)
       (MainWindow.UiLoader_init nat 7) "ColorButton" S "QLabel" 3 "label")))).
  discriminate.
Defined.

(** * How many groups *)

Lemma groupers_related {A : Type} (i : list A) (n : nat) :
  0 < n ->
  exists groups,
    GeomView.grouper i n = Some groups
    /\ Geom.grouper i n = Some (map (pad_group n) groups)
    /\ concat groups = i
    /\ Forall (fun g => g <> [] /\ length g <= n) groups
    /\ Forall (fun g => length g = n) (removelast groups).
Proof.
  intros Hn.
  destruct (geomview_grouper_total i n) as [groups [Hg [Hall Hcat]]].
  exists groups. split; [exact Hg |]. split.
  - unfold Geom.grouper, zip_longest_shared.
    destruct n as [| m]; [lia |].
    rewrite zl_loop_islice by lia.
    unfold GeomView.grouper in Hg. rewrite Hg. reflexivity.
  - split; [now apply Hcat |]. split; [exact Hall |].
    unfold GeomView.grouper in Hg.
    eapply islice_until_empty_full; eassumption.
Qed.

Lemma length_concat_groups {A : Type} (n : nat) (groups : list (list A)) :
  groups <> [] ->
  Forall (fun g => length g = n) (removelast groups) ->
  length (concat groups)
  = n * (length groups - 1) + length (last groups []).
Proof.
  induction groups as [| g groups IH]; [congruence |].
  intros _ Hfull. destruct groups as [| g' groups].
  - simpl. rewrite app_nil_r. lia.
  - change (removelast (g :: g' :: groups))
      with (g :: removelast (g' :: groups)) in Hfull.
    inversion Hfull as [| ? ? Hg Hrest]; subst.
    change (concat (g :: g' :: groups)) with (g ++ concat (g' :: groups)).
    change (last (g :: g' :: groups) []) with (last (g' :: groups) []).
    rewrite length_app, IH by (congruence || assumption).
    cbn [length]. nia.
Qed.

Lemma last_in_Forall {A : Type} (P : list A -> Prop) (groups : list (list A)) :
  groups <> [] -> Forall P groups -> P (last groups []).
Proof.
  intros Hne H. rewrite Forall_forall in H. apply H.
  destruct groups as [| g groups]; [congruence |].
  clear. revert g. induction groups as [| g' groups IH]; intros g.
  - now left.
  - right. apply IH.
Qed.

(** X2.  The number of groups.  For a group size [n > 0] both groupers yield
    [ceil (len / n)] groups for an iterator of [len] items; when [n] divides
    [len] the groups of [geom.grouper] are those of [geomview.grouper], with
    no fill value in them. *)
Theorem grouper_group_count {A : Type} (i : list A) (n : nat) :
  0 < n ->
  exists groups padded,
    GeomView.grouper i n = Some groups
    /\ Geom.grouper i n = Some padded
    /\ length groups = (length i + (n - 1)) / n
    /\ length padded = (length i + (n - 1)) / n
    /\ (length i mod n = 0 -> padded = map (map Some) groups).
Proof.
  intros Hn.
  destruct (groupers_related i n Hn)
    as [groups [Hv [Hg [Hcat [Hall Hfull]]]]].
  exists groups, (map (pad_group n) groups).
  split; [exact Hv |]. split; [exact Hg |].
  rewrite length_map.
  destruct groups as [| g0 gs] eqn:Eg.
  - simpl in Hcat. subst i. simpl.
    split; [| split]; try reflexivity;
      symmetry; apply Nat.div_small; lia.
  - rewrite <- Eg in *.
    assert (Hne : groups <> []) by (rewrite Eg; discriminate).
    pose proof (length_concat_groups n groups Hne Hfull) as Hlen.
    rewrite Hcat in Hlen.
    pose proof (last_in_Forall _ groups Hne Hall) as [Hl1 Hl2].
    assert (Hl0 : 1 <= length (last groups [])).
    { destruct (last groups []); [congruence | simpl; lia]. }
    assert (Hcount : length groups = (length i + (n - 1)) / n).
    { apply Nat.div_unique with (r := length (last groups []) - 1); [lia |].
      assert (1 <= length groups) by (rewrite Eg; simpl; lia). nia. }
    split; [exact Hcount |]. split; [exact Hcount |].
    intros Hmod.
    assert (Hlast : length (last groups []) = n).
    { assert (Hm : (length (last groups [])) mod n = 0).
      { rewrite <- Hmod, Hlen.
        rewrite Nat.add_comm, Nat.mul_comm. now rewrite Nat.Div0.mod_add. }
      destruct (Nat.eq_dec (length (last groups [])) n) as [E | E];
        [exact E |].
      rewrite Nat.mod_small in Hm by lia. lia. }
    apply map_ext_in. intros g Hin. unfold pad_group.
    assert (Hgl : length g = n).
    {       rewrite (app_removelast_last [] Hne) in Hin.
      apply in_app_or in Hin. destruct Hin as [Hin | [<- | []]].
      - rewrite Forall_forall in Hfull. now apply Hfull.
      - exact Hlast. }
    rewrite Hgl, Nat.sub_diag. simpl. now rewrite app_nil_r.
Qed.

Lemma grouper_group_count_witness :
  exists groups padded,
    GeomView.grouper [1; 2; 3; 4; 5; 6; 7]%Z 3 = Some groups
    /\ Geom.grouper [1; 2; 3; 4; 5; 6; 7]%Z 3 = Some padded
    /\ length groups = (length [1; 2; 3; 4; 5; 6; 7]%Z + (3 - 1)) / 3
    /\ length padded = (length [1; 2; 3; 4; 5; 6; 7]%Z + (3 - 1)) / 3
    /\ (length [1; 2; 3; 4; 5; 6; 7]%Z mod 3 = 0 ->
        padded = map (map Some) groups).
Proof.
  apply grouper_group_count. lia.
Defined.
